(** * WLED_interface: a shallow embedding of [src/main.py]

    The development follows the layout of the Python module:

    - the JSON-like documents the session holds, and the Python built-ins
      the module applies to them ([bool], [int], [len], item access);
    - [json.dumps] and [json.loads] on those documents;
    - class [WLED] (the device state store), over an explicit world made of
      the session object, the HTTP traffic and the snapshot files;
    - [TypeVerificationMixin], [ParentAccessor], [NightlightProperty],
      [SegmentItem], [SegmentListProperty] and [PropertyWLED];
    - the properties of the specification, proved or refuted on that code.

    Documents holding floating-point numbers, and strings with code points
    above U+00FF, are outside the model: a Python [str] is a [string] whose
    characters are the code points 0..255.  So are the limits the
    interpreter puts on sizes: integers are unbounded and printed or parsed
    with any number of digits, and documents are nested to any depth.
    The files of a world are text files that can be read; a file is kept
    under the path it is opened by, two paths standing for two files. *)

From Stdlib Require Import ZArith List String Ascii Bool Lia.
From Stdlib Require Import Decimal DecimalString DecimalPos DecimalFacts.
Import ListNotations.
Open Scope string_scope.
Open Scope Z_scope.

Set Warnings "-register-all".

(** ** Documents *)

(** Keys of a Python [dict] as this module uses them: [str] keys come from
    JSON objects and from the property views, [int] keys from the segment
    views (a [bool] key hashes and compares as the integer it is). *)
Inductive key : Type :=
| KStr (s : string)
| KInt (z : Z).

(** A Python value as [json.loads] builds it.  A [dict] is kept as the list
    of its items in insertion order. *)
Inductive value : Type :=
| VNone
| VBool (b : bool)
| VInt (z : Z)
| VStr (s : string)
| VList (l : list value)
| VDict (d : list (key * value)).

Definition key_eqb (a b : key) : bool :=
  match a, b with
  | KStr s, KStr t => String.eqb s t
  | KInt x, KInt y => Z.eqb x y
  | _, _ => false
  end.

(** The exceptions the module can raise or let through. *)
Inductive exn : Type :=
| KeyError
| IndexError
| TypeError
| ValueError
| AttributeError
| JSONDecodeError
| RequestException
| OSError.

(** The result of a Python expression: a value or a raised exception. *)
Inductive result (A : Type) : Type :=
| Return (a : A)
| Raise (e : exn).
Arguments Return {A} a.
Arguments Raise {A} e.

Definition rbind {A B} (r : result A) (k : A -> result B) : result B :=
  match r with
  | Return a => k a
  | Raise e => Raise e
  end.

(** ** Python built-ins on documents *)

Definition dquote : ascii := ascii_of_nat 34.

Definition is_digit (c : ascii) : bool :=
  (48 <=? nat_of_ascii c)%nat && (nat_of_ascii c <=? 57)%nat.

(** The longest prefix of decimal digits, and what follows it. *)
Fixpoint span_digits (s : string) : string * string :=
  match s with
  | String c r =>
      if is_digit c
      then let (ds, r') := span_digits r in (String c ds, r')
      else (EmptyString, s)
  | EmptyString => (EmptyString, EmptyString)
  end.

(** The integer a non-empty run of decimal digits denotes. *)
Definition digits_value (ds : string) : option Z :=
  match ds with
  | EmptyString => None
  | _ => option_map Z.of_uint (NilEmpty.uint_of_string ds)
  end.

(** [str(n)] for an integer. *)
Definition str_of_int (z : Z) : string :=
  match z with
  | Z0 => "0"
  | Zpos p => NilEmpty.string_of_uint (Pos.to_uint p)
  | Zneg p => String "-" (NilEmpty.string_of_uint (Pos.to_uint p))
  end.

(** [bool(v)]: Python's truth value testing. *)
Definition py_bool (v : value) : bool :=
  match v with
  | VNone => false
  | VBool b => b
  | VInt z => negb (z =? 0)
  | VStr s => negb (String.eqb s EmptyString)
  | VList l => match l with [] => false | _ => true end
  | VDict d => match d with [] => false | _ => true end
  end.

(** The characters [int(str)] strips around a numeral: the ASCII white
    space and, above U+007F, the Unicode spaces U+0085 and U+00A0. *)
Definition is_int_space (c : ascii) : bool :=
  let n := nat_of_ascii c in
  ((9 <=? n) && (n <=? 13) || (n =? 32) || (n =? 133) || (n =? 160))%nat.

Fixpoint lstrip (s : string) : string :=
  match s with
  | String c r => if is_int_space c then lstrip r else s
  | EmptyString => EmptyString
  end.

Fixpoint all_int_space (s : string) : bool :=
  match s with
  | String c r => is_int_space c && all_int_space r
  | EmptyString => true
  end.

(** The digits of a base-10 numeral with its single underscores removed:
    [None] when the text does not start with a digit, has an underscore not
    followed by a digit, or is followed by anything but white space. *)
Fixpoint int_digits (s : string) : option string :=
  match s with
  | String c r =>
      if is_digit c then
        match r with
        | String "_" r' =>
            match r' with
            | String c' _ =>
                if is_digit c' then option_map (String c) (int_digits r')
                else None
            | EmptyString => None
            end
        | String c' _ =>
            if is_digit c' then option_map (String c) (int_digits r)
            else if all_int_space r then Some (String c EmptyString)
            else None
        | EmptyString => Some (String c EmptyString)
        end
      else None
  | EmptyString => None
  end.

(** [int(s)] for a string, in base 10. *)
Definition int_of_str (s : string) : result Z :=
  let body := lstrip s in
  let (neg, num) :=
    match body with
    | String "-" r => (true, r)
    | String "+" r => (false, r)
    | _ => (false, body)
    end in
  match int_digits num with
  | Some ds =>
      match digits_value ds with
      | Some n => Return (if neg then - n else n)
      | None => Raise ValueError
      end
  | None => Raise ValueError
  end.

(** [int(v)]. *)
Definition py_int (v : value) : result Z :=
  match v with
  | VBool b => Return (if b then 1 else 0)
  | VInt z => Return z
  | VStr s => int_of_str s
  | VNone | VList _ | VDict _ => Raise TypeError
  end.

(** [len(v)]. *)
Definition py_len (v : value) : result Z :=
  match v with
  | VStr s => Return (Z.of_nat (String.length s))
  | VList l => Return (Z.of_nat (List.length l))
  | VDict d => Return (Z.of_nat (List.length d))
  | VNone | VBool _ | VInt _ => Raise TypeError
  end.

(** [len(v.keys())]: only a [dict] has [keys]. *)
Definition len_keys (v : value) : result Z :=
  match v with
  | VDict d => Return (Z.of_nat (List.length d))
  | _ => Raise AttributeError
  end.

Fixpoint dict_get (d : list (key * value)) (k : key) : option value :=
  match d with
  | [] => None
  | (k', v) :: d' => if key_eqb k' k then Some v else dict_get d' k
  end.

(** [d[k] = v] on a [dict]: an existing key keeps its place. *)
Fixpoint dict_set (d : list (key * value)) (k : key) (v : value)
  : list (key * value) :=
  match d with
  | [] => [(k, v)]
  | (k', v') :: d' =>
      if key_eqb k' k then (k', v) :: d' else (k', v') :: dict_set d' k v
  end.

(** The position a sequence index denotes: negative indices count from the
    end, and an index outside the sequence denotes none. *)
Definition seq_index (len : nat) (i : Z) : option nat :=
  let j := if i <? 0 then i + Z.of_nat len else i in
  if (0 <=? j) && (j <? Z.of_nat len) then Some (Z.to_nat j) else None.

Fixpoint list_set {A} (l : list A) (n : nat) (a : A) : list A :=
  match l, n with
  | [], _ => []
  | _ :: l', O => a :: l'
  | x :: l', S n' => x :: list_set l' n' a
  end.

(** [v[k]]. *)
Definition py_getitem (v : value) (k : key) : result value :=
  match v with
  | VDict d =>
      match dict_get d k with
      | Some x => Return x
      | None => Raise KeyError
      end
  | VList l =>
      match k with
      | KInt i =>
          match seq_index (List.length l) i with
          | Some n =>
              match nth_error l n with
              | Some x => Return x
              | None => Raise IndexError
              end
          | None => Raise IndexError
          end
      | KStr _ => Raise TypeError
      end
  | VStr s =>
      match k with
      | KInt i =>
          match seq_index (String.length s) i with
          | Some n =>
              match String.get n s with
              | Some c => Return (VStr (String c EmptyString))
              | None => Raise IndexError
              end
          | None => Raise IndexError
          end
      | KStr _ => Raise TypeError
      end
  | VNone | VBool _ | VInt _ => Raise TypeError
  end.

(** [v[k] = x], returning the updated [v]. *)
Definition py_setitem (v : value) (k : key) (x : value) : result value :=
  match v with
  | VDict d => Return (VDict (dict_set d k x))
  | VList l =>
      match k with
      | KInt i =>
          match seq_index (List.length l) i with
          | Some n => Return (VList (list_set l n x))
          | None => Raise IndexError
          end
      | KStr _ => Raise TypeError
      end
  | VNone | VBool _ | VInt _ | VStr _ => Raise TypeError
  end.

(** [v.update({k: x})]: only a [dict] has [update]. *)
Definition py_update (v : value) (k : key) (x : value) : result value :=
  match v with
  | VDict d => Return (VDict (dict_set d k x))
  | _ => Raise AttributeError
  end.

(** The call [v.__getitem__(k)] written out: looking the method up raises
    AttributeError on [None], a [bool] and an [int], which have none; a
    [str], a [list] and a [dict] answer as [v[k]] does. *)
Definition method_getitem (v : value) (k : key) : result value :=
  match v with
  | VNone | VBool _ | VInt _ => Raise AttributeError
  | VStr _ | VList _ | VDict _ => py_getitem v k
  end.

(** The call [v.__setitem__(k, x)] written out, returning the updated [v]:
    only a [list] and a [dict] have the method. *)
Definition method_setitem (v : value) (k : key) (x : value) : result value :=
  match v with
  | VNone | VBool _ | VInt _ | VStr _ => Raise AttributeError
  | VList _ | VDict _ => py_setitem v k x
  end.

(** ** [json.dumps] *)

Definition hex_digit (n : nat) : ascii :=
  if (n <? 10)%nat then ascii_of_nat (48 + n) else ascii_of_nat (87 + n).

(** One character of a string literal, as [ensure_ascii] writes it. *)
Definition escape_char (c : ascii) : string :=
  let n := nat_of_ascii c in
  if (n =? 34)%nat then String "\" (String dquote EmptyString)
  else if (n =? 92)%nat then "\\"
  else if (n =? 8)%nat then "\b"
  else if (n =? 12)%nat then "\f"
  else if (n =? 10)%nat then "\n"
  else if (n =? 13)%nat then "\r"
  else if (n =? 9)%nat then "\t"
  else if ((n <? 32) || (126 <? n))%nat then
    "\u00" ++
    String (hex_digit (n / 16)) (String (hex_digit (n mod 16)) EmptyString)
  else String c EmptyString.

Fixpoint escape_str (s : string) : string :=
  match s with
  | String c r => escape_char c ++ escape_str r
  | EmptyString => EmptyString
  end.

Definition encode_str (s : string) : string :=
  String dquote (escape_str s ++ String dquote EmptyString).

(** The text of a key: a [str] key as it is, an [int] key as [str(key)]. *)
Definition key_str (k : key) : string :=
  match k with
  | KStr s => s
  | KInt z => str_of_int z
  end.

(** [", ".join(items)]. *)
Fixpoint join_items (items : list string) : string :=
  match items with
  | [] => EmptyString
  | [x] => x
  | x :: rest => x ++ ", " ++ join_items rest
  end.

(** [json.dumps(v)] with the default separators. *)
Fixpoint dumps (v : value) : string :=
  match v with
  | VNone => "null"
  | VBool true => "true"
  | VBool false => "false"
  | VInt z => str_of_int z
  | VStr s => encode_str s
  | VList l => "[" ++ join_items (map dumps l) ++ "]"
  | VDict d =>
      "{" ++
      join_items
        (map (fun kv => encode_str (key_str (fst kv)) ++ ": " ++ dumps (snd kv))
           d) ++
      "}"
  end.

(** ** [json.loads] *)

Definition is_ws (c : ascii) : bool :=
  let n := nat_of_ascii c in
  ((n =? 32) || (n =? 9) || (n =? 10) || (n =? 13))%nat.

Fixpoint skip_ws (s : string) : string :=
  match s with
  | String c r => if is_ws c then skip_ws r else s
  | EmptyString => EmptyString
  end.

Definition hex_value (c : ascii) : option nat :=
  let n := nat_of_ascii c in
  if ((48 <=? n) && (n <=? 57))%nat then Some (n - 48)%nat
  else if ((97 <=? n) && (n <=? 102))%nat then Some (n - 87)%nat
  else if ((65 <=? n) && (n <=? 70))%nat then Some (n - 55)%nat
  else None.

(** The character a one-letter escape stands for. *)
Definition unescape (e : ascii) : option ascii :=
  let n := nat_of_ascii e in
  if (n =? 34)%nat then Some dquote
  else if (n =? 92)%nat then Some "\"%char
  else if (n =? 47)%nat then Some "/"%char
  else if (n =? 98)%nat then Some (ascii_of_nat 8)
  else if (n =? 102)%nat then Some (ascii_of_nat 12)
  else if (n =? 110)%nat then Some (ascii_of_nat 10)
  else if (n =? 114)%nat then Some (ascii_of_nat 13)
  else if (n =? 116)%nat then Some (ascii_of_nat 9)
  else None.

Definition cons_char (c : ascii) (r : option (string * string))
  : option (string * string) :=
  match r with
  | Some (x, rest) => Some (String c x, rest)
  | None => None
  end.

(** The code point of a [\uXXXX] escape, when it is one of 0..255. *)
Definition hex4 (h1 h2 h3 h4 : ascii) : option ascii :=
  match hex_value h1, hex_value h2, hex_value h3, hex_value h4 with
  | Some a, Some b, Some c, Some d =>
      if ((a =? 0) && (b =? 0))%nat then Some (ascii_of_nat (16 * c + d))
      else None
  | _, _, _, _ => None
  end.

(** The body of a string literal, from just after its opening quote, and the
    text after its closing quote (strict mode: no raw control character). *)
Fixpoint scanstring (s : string) : option (string * string) :=
  match s with
  | EmptyString => None
  | String c r =>
      if (nat_of_ascii c =? 34)%nat then Some (EmptyString, r)
      else if (nat_of_ascii c =? 92)%nat then
        match r with
        | String "u" (String h1 (String h2 (String h3 (String h4 r')))) =>
            match hex4 h1 h2 h3 h4 with
            | Some x => cons_char x (scanstring r')
            | None => None
            end
        | String e r' =>
            match unescape e with
            | Some x => cons_char x (scanstring r')
            | None => None
            end
        | EmptyString => None
        end
      else if (nat_of_ascii c <? 32)%nat then None
      else cons_char c (scanstring r)
  end.

(** Whether a fraction or an exponent follows an integer part: the number
    is then a float. *)
Definition float_suffix (s : string) : bool :=
  match s with
  | String "." (String d _) => is_digit d
  | String "e" (String d r) | String "E" (String d r) =>
      is_digit d ||
      match d, r with
      | "+"%char, String d' _ | "-"%char, String d' _ => is_digit d'
      | _, _ => false
      end
  | _ => false
  end.

(** The integer part of a number (a single zero, or a digit run without a
    leading zero) and the text after it; [neg] tells whether a minus sign
    came before it. *)
Definition scan_unsigned (neg : bool) (body : string) : option (Z * string) :=
  match body with
  | String "0" r => if float_suffix r then None else Some (0, r)
  | String c _ =>
      if is_digit c then
        let (ds, r) := span_digits body in
        if float_suffix r then None
        else option_map (fun n => (if neg then - n else n, r)) (digits_value ds)
      else None
  | EmptyString => None
  end.

(** An integer literal and the text after it. *)
Definition scan_number (s : string) : option (Z * string) :=
  match s with
  | String "-" r => scan_unsigned true r
  | _ => scan_unsigned false s
  end.

(** [dict(pairs)]: a repeated key keeps its first place and its last
    value. *)
Definition dict_of_pairs (pairs : list (string * value))
  : list (key * value) :=
  fold_left (fun d kv => dict_set d (KStr (fst kv)) (snd kv)) pairs [].

(** The scanner of [json.scanner] and [json.decoder].  As in Python, the
    functions that read an array and an object are given the scanner of
    values to call on their elements. *)

(** [scan_once]: one value at the head of the text.  The literals of
    floats (a number with a fraction or an exponent, [NaN], [Infinity]) are
    not read. *)
Definition scan_once
  (elems : string -> option (list value * string))
  (members : string -> option (list (string * value) * string))
  (s : string) : option (value * string) :=
  match s with
  | EmptyString => None
  | String c r =>
      if (nat_of_ascii c =? 34)%nat then
        match scanstring r with
        | Some (x, r') => Some (VStr x, r')
        | None => None
        end
      else
        match c with
        | "{"%char =>
            match skip_ws r with
            | String "}" r' => Some (VDict [], r')
            | String q r' =>
                if (nat_of_ascii q =? 34)%nat then
                  match members r' with
                  | Some (pairs, r'') =>
                      Some (VDict (dict_of_pairs pairs), r'')
                  | None => None
                  end
                else None
            | EmptyString => None
            end
        | "["%char =>
            match skip_ws r with
            | String "]" r' => Some (VList [], r')
            | r' =>
                match elems r' with
                | Some (l, r'') => Some (VList l, r'')
                | None => None
                end
            end
        | "n"%char =>
            match r with
            | String "u" (String "l" (String "l" r')) => Some (VNone, r')
            | _ => None
            end
        | "t"%char =>
            match r with
            | String "r" (String "u" (String "e" r')) =>
                Some (VBool true, r')
            | _ => None
            end
        | "f"%char =>
            match r with
            | String "a" (String "l" (String "s" (String "e" r'))) =>
                Some (VBool false, r')
            | _ => None
            end
        | _ =>
            match scan_number s with
            | Some (z, r') => Some (VInt z, r')
            | None => None
            end
        end
  end.

(** One turn of the loop of [JSONArray]: an element, then the closing
    bracket or a comma and the elements after it. *)
Definition JSONArray
  (scan : string -> option (value * string))
  (elems : string -> option (list value * string))
  (s : string) : option (list value * string) :=
  match scan s with
  | Some (v, r) =>
      match skip_ws r with
      | String "]" r' => Some ([v], r')
      | String "," r' =>
          match elems (skip_ws r') with
          | Some (l, r'') => Some (v :: l, r'')
          | None => None
          end
      | _ => None
      end
  | None => None
  end.

(** One turn of the loop of [JSONObject], from just after the opening quote
    of a key: the key, a colon, the value, then the closing brace or a comma
    and the members after it. *)
Definition JSONObject
  (scan : string -> option (value * string))
  (members : string -> option (list (string * value) * string))
  (s : string) : option (list (string * value) * string) :=
  match scanstring s with
  | Some (k, r) =>
      match skip_ws r with
      | String ":" r1 =>
          match scan (skip_ws r1) with
          | Some (v, r2) =>
              match skip_ws r2 with
              | String "}" r3 => Some ([(k, v)], r3)
              | String "," r3 =>
                  match skip_ws r3 with
                  | String q r4 =>
                      if (nat_of_ascii q =? 34)%nat then
                        match members r4 with
                        | Some (pairs, r5) => Some ((k, v) :: pairs, r5)
                        | None => None
                        end
                      else None
                  | EmptyString => None
                  end
              | _ => None
              end
          | None => None
          end
      | _ => None
      end
  | None => None
  end.

(** The three functions tied together: [parse_value] reads one value,
    [parse_elems] the elements of an array up to its closing bracket,
    [parse_members] the members of an object up to its closing brace.  The
    fuel bounds the recursion. *)
Fixpoint parse_value (fuel : nat) (s : string) : option (value * string) :=
  match fuel with
  | O => None
  | S fuel => scan_once (parse_elems fuel) (parse_members fuel) s
  end
with parse_elems (fuel : nat) (s : string) : option (list value * string) :=
  match fuel with
  | O => None
  | S fuel => JSONArray (parse_value fuel) (parse_elems fuel) s
  end
with parse_members (fuel : nat) (s : string)
  : option (list (string * value) * string) :=
  match fuel with
  | O => None
  | S fuel => JSONObject (parse_value fuel) (parse_members fuel) s
  end.

(** [json.loads(s)]: one value, with white space allowed around it and
    nothing else after it.  Two units of fuel for each character are enough
    for every call the scanner makes on [s] (lemma [loads_fuel]).  The
    numbers read are the integers: a text with a fraction, an exponent or
    one of [NaN] and [Infinity] stands for no document of the model and is
    refused. *)
Definition loads (s : string) : result value :=
  match parse_value (S (2 * String.length s)) (skip_ws s) with
  | Some (v, r) =>
      match skip_ws r with
      | EmptyString => Return v
      | _ => Raise JSONDecodeError
      end
  | None => Raise JSONDecodeError
  end.

(** ** The world of a session *)

(** An HTTP request of the [requests] library, with the document passed as
    [json=] for a POST. *)
Inductive request : Type :=
| GET (url : string)
| POST (url : string) (json : value).

(** The attributes of a [WLED] object. *)
Record WLED : Type := mkWLED {
  ip_addr : string;
  state : value;
  info : value;
  effects : value;
  palettes : value }.

(** The session object, the requests sent so far (oldest first) and the
    content of the files under the working directory. *)
Record World : Type := mkWorld {
  self : WLED;
  wire : list request;
  files : list (string * string) }.

(** A method body: it runs in a world, returns or raises, and leaves a
    world behind in both cases. *)
Definition M (A : Type) : Type := World -> result A * World.

Definition ret {A} (a : A) : M A := fun w => (Return a, w).

Definition raise {A} (e : exn) : M A := fun w => (Raise e, w).

Definition bind {A B} (m : M A) (k : A -> M B) : M B :=
  fun w =>
    match m w with
    | (Return a, w') => k a w'
    | (Raise e, w') => (Raise e, w')
    end.

Notation "x <- m ;; k" := (bind m (fun x => k))
  (at level 61, m at next level, right associativity).
Notation "m ;;; k" := (bind m (fun _ => k))
  (at level 61, right associativity).

Definition lift {A} (r : result A) : M A := fun w => (r, w).

Definition get_self : M WLED := fun w => (Return (self w), w).

Definition set_self (o : WLED) : M unit :=
  fun w => (Return tt, mkWorld o (wire w) (files w)).

Definition get_state : M value := o <- get_self ;; ret (state o).

Definition set_state (v : value) : M unit :=
  o <- get_self ;;
  set_self (mkWLED (ip_addr o) v (info o) (effects o) (palettes o)).

Definition get_info : M value := o <- get_self ;; ret (info o).

Definition set_info (v : value) : M unit :=
  o <- get_self ;;
  set_self (mkWLED (ip_addr o) (state o) v (effects o) (palettes o)).

Definition set_effects (v : value) : M unit :=
  o <- get_self ;;
  set_self (mkWLED (ip_addr o) (state o) (info o) v (palettes o)).

Definition set_palettes (v : value) : M unit :=
  o <- get_self ;;
  set_self (mkWLED (ip_addr o) (state o) (info o) (effects o) v).

(** [sep.join(parts)]. *)
Fixpoint str_join (sep : string) (parts : list string) : string :=
  match parts with
  | [] => EmptyString
  | [x] => x
  | x :: rest => x ++ sep ++ str_join sep rest
  end.

Fixpoint file_get (fs : list (string * string)) (path : string)
  : option string :=
  match fs with
  | [] => None
  | (p, c) :: fs' => if String.eqb p path then Some c else file_get fs' path
  end.

Fixpoint file_set (fs : list (string * string)) (path content : string)
  : list (string * string) :=
  match fs with
  | [] => [(path, content)]
  | (p, c) :: fs' =>
      if String.eqb p path then (p, content) :: fs'
      else (p, c) :: file_set fs' path content
  end.

(** [open] refuses a path with a NUL character with ValueError, before
    the file system is asked; what the file system refuses is an
    OSError. *)
Fixpoint has_nul (s : string) : bool :=
  match s with
  | String c r => (nat_of_ascii c =? 0)%nat || has_nul r
  | EmptyString => false
  end.

Definition open_error (path : string) : exn :=
  if has_nul path then ValueError else OSError.

(** ** class [WLED] *)

Section Device.

(** The device answers a request, given the requests made before it, with
    the text of its response, or the transport raises. *)
Variable device : list request -> request -> option string.

(** The paths that [open] can open for writing. *)
Variable writable : string -> bool.

(** [get(url)] and [post(url, json=...)], reduced to the response text. *)
Definition http (req : request) : M string :=
  fun w =>
    let w' := mkWorld (self w) (wire w ++ [req]) (files w) in
    match device (wire w) req with
    | Some text => (Return text, w')
    | None => (Raise RequestException, w')
    end.

(** [open(path, mode="w")] followed by [f.write(content)], the content
    being computed once the file is open; a path that cannot be opened
    raises and leaves the world as it was. *)
Definition write_file (path : string) (content : M string) : M unit :=
  fun w =>
    if writable path then
      let w1 :=
        mkWorld (self w) (wire w) (file_set (files w) path EmptyString) in
      match content w1 with
      | (Return text, w2) =>
          (Return tt,
           mkWorld (self w2) (wire w2) (file_set (files w2) path text))
      | (Raise e, w2) => (Raise e, w2)
      end
    else (Raise (open_error path), w).

(** [open(path, mode="r")] followed by [f.read()]; a path with no file to
    read raises. *)
Definition read_file (path : string) : M string :=
  fun w =>
    match file_get (files w) path with
    | Some text => (Return text, w)
    | None => (Raise (open_error path), w)
    end.

Definition _state_url : M string :=
  o <- get_self ;;
  ret (str_join "/" ["http:/"; ip_addr o; "json"; "state"]).

Definition loaded : M bool :=
  o <- get_self ;;
  n <- lift (len_keys (state o)) ;;
  let state_valid := negb (n =? 0) in
  n <- lift (len_keys (info o)) ;;
  let info_valid := negb (n =? 0) in
  n <- lift (py_len (effects o)) ;;
  let effects_valid := negb (n =? 0) in
  n <- lift (py_len (palettes o)) ;;
  let palettes_valid := negb (n =? 0) in
  ret (state_valid && info_valid && effects_valid && palettes_valid).

Definition get_json (endpoint : string) : M value :=
  o <- get_self ;;
  r <- http (GET (str_join "/" ["http:/"; ip_addr o; "json"; endpoint])) ;;
  lift (loads r).

Definition pull_state : M unit :=
  v <- get_json "state" ;; set_state v ;;;
  v <- get_json "info" ;; set_info v ;;;
  v <- get_json "eff" ;; set_effects v ;;;
  v <- get_json "pal" ;; set_palettes v.

Definition push_state (get_resp : bool) : M unit :=
  (if get_resp then
     st <- get_state ;;
     st' <- lift (py_update st (KStr "v") (VBool get_resp)) ;;
     set_state st'
   else ret tt) ;;;
  url <- _state_url ;;
  st <- get_state ;;
  r <- http (POST url st) ;;
  if get_resp then
    v <- lift (loads r) ;;
    set_state v
  else ret tt.

Definition state_file (file_name : string) : string :=
  "./saved_states/" ++ file_name ++ ".json".

Definition save_state_file (file_name : string) : M unit :=
  write_file (state_file file_name) (st <- get_state ;; ret (dumps st)).

Definition load_state_file (file_name : string) : M unit :=
  text <- read_file (state_file file_name) ;;
  v <- lift (loads text) ;;
  set_state v.

(** [WLED(ip_addr)]: the attributes get their initial values (the empty
    [defaultdict] is an empty [dict] until the pull replaces it), then the
    documents are pulled. *)
Definition __init__ (ip : string) : M unit :=
  set_self (mkWLED ip (VDict []) (VDict []) (VList []) (VList [])) ;;;
  pull_state.

End Device.

(** ** [TypeVerificationMixin] *)

Definition _verify_bool (val : value) : result bool :=
  Return (py_bool val).

Definition _verify_int8bit (val : value) : result Z :=
  rbind (py_int val) (fun val =>
  if (val >? 255) || (val <? 1) then Raise ValueError else Return val).

Definition _verify_range (val : value) (min_val max_val : Z) : result Z :=
  rbind (py_int val) (fun val =>
  if (val >? max_val) || (val <? min_val) then Raise ValueError
  else Return val).

(** ** [ParentAccessor] *)

(** The two closures a property view reads and writes its fields with. *)
Record ParentAccessor : Type := mkParentAccessor {
  _accessor : key -> M value;
  _setter : key -> value -> M unit }.

(** ** [NightlightProperty] *)

Module NightlightProperty.

Definition MODE_INSTANT : string := "instant".
Definition MODE_FADE : string := "fade".
Definition MODE_COLOR_FADE : string := "color fade".
Definition MODE_SUNRISE : string := "sunrise".

Definition _MODE_MAP : list (string * Z) :=
  [(MODE_INSTANT, 0); (MODE_FADE, 1); (MODE_COLOR_FADE, 2);
   (MODE_SUNRISE, 3)].

Fixpoint assoc (m : list (string * Z)) (s : string) : option Z :=
  match m with
  | [] => None
  | (k, n) :: m' => if String.eqb k s then Some n else assoc m' s
  end.

(** [_MODE_MAP[value]]: a list or a dict cannot be hashed, and nothing
    but one of the four strings is a key. *)
Definition _MODE_MAP_getitem (v : value) : result value :=
  match v with
  | VStr s =>
      match assoc _MODE_MAP s with
      | Some n => Return (VInt n)
      | None => Raise KeyError
      end
  | VList _ | VDict _ => Raise TypeError
  | VNone | VBool _ | VInt _ => Raise KeyError
  end.

Definition on (p : ParentAccessor) : M value :=
  _accessor p (KStr "on").

Definition set_on (p : ParentAccessor) (v : value) : M unit :=
  b <- lift (_verify_bool v) ;;
  _setter p (KStr "on") (VBool b).

Definition duration_minutes (p : ParentAccessor) : M value :=
  _accessor p (KStr "dur").

Definition set_duration_minutes (p : ParentAccessor) (v : value) : M unit :=
  n <- lift (_verify_int8bit v) ;;
  _setter p (KStr "dur") (VInt n).

Definition mode (p : ParentAccessor) : M value :=
  _accessor p (KStr "mode").

Definition set_mode (p : ParentAccessor) (v : value) : M unit :=
  v <- match _MODE_MAP_getitem v with
       | Return x => ret x
       | Raise KeyError => ret v
       | Raise e => raise e
       end ;;
  n <- lift (py_int v) ;;
  n <- lift (_verify_range (VInt n) 0 3) ;;
  _setter p (KStr "mode") (VInt n).

Definition target_brightness (p : ParentAccessor) : M value :=
  _accessor p (KStr "tbri").

Definition set_target_brightness (p : ParentAccessor) (v : value)
  : M unit :=
  n <- lift (_verify_int8bit v) ;;
  _setter p (KStr "tbri") (VInt n).

Definition remaining_seconds (p : ParentAccessor) : M value :=
  _accessor p (KStr "rem").

End NightlightProperty.

(** ** [SegmentItem] *)

Module SegmentItem.

Record t : Type := mk {
  parent : ParentAccessor;
  _info_accessor : key -> M value;
  _seg_id : Z }.

Definition _this_item (it : t) : M value :=
  _accessor (parent it) (KInt (_seg_id it)).

Definition start (it : t) : M value :=
  x <- _this_item it ;;
  lift (py_getitem x (KStr "start")).

Definition set_start (it : t) (v : value) : M unit :=
  n <- lift (_verify_int8bit v) ;;
  _setter (parent it) (KInt (_seg_id it)) (VInt n).

End SegmentItem.

(** ** [SegmentListProperty] *)

Module SegmentListProperty.

Record t : Type := mk {
  parent : ParentAccessor;
  _info_accessor : key -> M value }.

(** [item < max_seg] for an integer [item]. *)
Definition int_lt (item : Z) (max_seg : value) : result bool :=
  match max_seg with
  | VInt m => Return (item <? m)
  | VBool b => Return (item <? (if b then 1 else 0))
  | VNone | VStr _ | VList _ | VDict _ => Raise TypeError
  end.

(** Indexing the segment list.  A method that ends without [return]
    returns [None]; the line written to the console is not part of the
    world. *)
Definition __getitem__ (sl : t) (item : Z) : M (option SegmentItem.t) :=
  leds <- _info_accessor sl (KStr "leds") ;;
  max_seg <- lift (py_getitem leds (KStr "maxseg")) ;;
  b <- lift (int_lt item max_seg) ;;
  if b then
    ret (Some (SegmentItem.mk (parent sl) (_info_accessor sl) item))
  else ret None.

Definition duration_minutes (sl : t) : M value :=
  _accessor (parent sl) (KStr "dur").

Definition set_duration_minutes (sl : t) (v : value) : M unit :=
  n <- lift (_verify_int8bit v) ;;
  _setter (parent sl) (KStr "dur") (VInt n).

End SegmentListProperty.

(** ** [PropertyWLED] *)

Module PropertyWLED.

(** [self.state[name].__getitem__(k)]. *)
Definition sub_get (name : string) (k : key) : M value :=
  st <- get_state ;;
  sub <- lift (py_getitem st (KStr name)) ;;
  lift (method_getitem sub k).

(** [self.state[name].__setitem__(k, v)]: the object under [name] is
    changed in place, so the state document holds the changed object. *)
Definition sub_set (name : string) (k : key) (v : value) : M unit :=
  st <- get_state ;;
  sub <- lift (py_getitem st (KStr name)) ;;
  sub' <- lift (method_setitem sub k v) ;;
  st' <- lift (py_setitem st (KStr name) sub') ;;
  set_state st'.

(** [self.info.__getitem__(k)]. *)
Definition info_get (k : key) : M value :=
  i <- get_info ;;
  lift (method_getitem i k).

Definition _nightlight_interface : ParentAccessor :=
  mkParentAccessor (sub_get "nl") (sub_set "nl").

Definition _segment_interface : SegmentListProperty.t :=
  SegmentListProperty.mk
    (mkParentAccessor (sub_get "seg") (sub_set "seg")) info_get.

Definition on : M value :=
  st <- get_state ;; lift (py_getitem st (KStr "on")).

Definition set_on (v : value) : M unit :=
  b <- lift (_verify_bool v) ;;
  st <- get_state ;;
  st' <- lift (py_setitem st (KStr "on") (VBool b)) ;;
  set_state st'.

Definition brightness : M value :=
  st <- get_state ;; lift (py_getitem st (KStr "bri")).

Definition set_brightness (v : value) : M unit :=
  n <- lift (_verify_int8bit v) ;;
  st <- get_state ;;
  st' <- lift (py_setitem st (KStr "bri") (VInt n)) ;;
  set_state st'.

Definition transition : M value :=
  st <- get_state ;; lift (py_getitem st (KStr "transition")).

Definition set_transition (v : value) : M unit :=
  n <- lift (_verify_int8bit v) ;;
  st <- get_state ;;
  st' <- lift (py_setitem st (KStr "transition") (VInt n)) ;;
  set_state st'.

Definition nightlight : ParentAccessor := _nightlight_interface.

Definition segment : SegmentListProperty.t := _segment_interface.

Definition reboot_wled
  (device : list request -> request -> option string) : M unit :=
  set_state (VDict [(KStr "rb", VBool true)]) ;;;
  push_state device false.

End PropertyWLED.

(** * Properties *)

(** ** Vocabulary of the statements *)

(** What Python counts as false among the documents. *)
Inductive falsy : value -> Prop :=
| falsy_none : falsy VNone
| falsy_false : falsy (VBool false)
| falsy_zero : falsy (VInt 0)
| falsy_empty_str : falsy (VStr EmptyString)
| falsy_empty_list : falsy (VList [])
| falsy_empty_dict : falsy (VDict []).

(** The two calls that talk to the device. *)
Inductive call : Type :=
| Pull
| Push (get_resp : bool).

Definition run (device : list request -> request -> option string)
  (c : call) : M unit :=
  match c with
  | Pull => pull_state device
  | Push get_resp => push_state device get_resp
  end.

(** The session object with its documents replaced. *)
Definition with_docs (o : WLED) (st inf eff pal : value) : WLED :=
  mkWLED (ip_addr o) st inf eff pal.

(** The state document once [{"v": True}] has been merged into it. *)
Definition verbose (st : value) : value :=
  match st with
  | VDict d => VDict (dict_set d (KStr "v") (VBool true))
  | _ => st
  end.

(** The URL of an endpoint of the device at [ip]. *)
Definition endpoint_url (ip endpoint : string) : string :=
  "http://" ++ ip ++ "/json/" ++ endpoint.

(** The traffic once the session of [w] has fetched the given endpoints. *)
Definition fetched (w : World) (endpoints : list string) : list request :=
  (wire w ++
   map (fun endpoint => GET (endpoint_url (ip_addr (self w)) endpoint))
     endpoints)%list.

(** The document that the answer of the device to a GET of [endpoint],
    sent after the requests [sent], stands for; the transport raises when
    the device does not answer, the parser when the answer is not JSON. *)
Definition answer (device : list request -> request -> option string)
  (sent : list request) (ip endpoint : string) : result value :=
  match device sent (GET (endpoint_url ip endpoint)) with
  | Some text => loads text
  | None => Raise RequestException
  end.

(** What a call that raised [e] in [w] leaves in [w'].  A pull has sent
    its requests up to the fetch that raised [e]; each document fetched
    before that one has been replaced by the document the device answered
    with, and the others are as they were.  A push without response has
    changed no document, and a push with response has merged the flag into
    the state document. *)
Definition left_by_failure
  (device : list request -> request -> option string) (c : call) (e : exn)
  (w w' : World) : Prop :=
  let o := self w in
  let got := fun endpoints => answer device (fetched w endpoints) (ip_addr o) in
  match c with
  | Pull =>
      (got [] "state" = Raise e /\
       wire w' = fetched w ["state"] /\ self w' = o) \/
      (exists st,
         got [] "state" = Return st /\
         got ["state"] "info" = Raise e /\
         wire w' = fetched w ["state"; "info"] /\
         self w' = with_docs o st (info o) (effects o) (palettes o)) \/
      (exists st inf,
         got [] "state" = Return st /\
         got ["state"] "info" = Return inf /\
         got ["state"; "info"] "eff" = Raise e /\
         wire w' = fetched w ["state"; "info"; "eff"] /\
         self w' = with_docs o st inf (effects o) (palettes o)) \/
      (exists st inf eff,
         got [] "state" = Return st /\
         got ["state"] "info" = Return inf /\
         got ["state"; "info"] "eff" = Return eff /\
         got ["state"; "info"; "eff"] "pal" = Raise e /\
         wire w' = fetched w ["state"; "info"; "eff"; "pal"] /\
         self w' = with_docs o st inf eff (palettes o))
  | Push false => self w' = o
  | Push true =>
      self w' =
      with_docs o (verbose (state o)) (info o) (effects o) (palettes o)
  end.

(** The view of segment [i] that indexing the segment list of a
    [PropertyWLED] builds. *)
Definition segment_view (i : Z) : SegmentItem.t :=
  SegmentItem.mk
    (SegmentListProperty.parent PropertyWLED.segment)
    (SegmentListProperty._info_accessor PropertyWLED.segment) i.

(** The slot of segment [i], looked up as the accessor of the segment
    list does: [st["seg"].__getitem__(i)]. *)
Definition segment_slot (st : value) (i : Z) : result value :=
  rbind (py_getitem st (KStr "seg")) (fun seg => method_getitem seg (KInt i)).

(** The state document after the setter of the segment list has run
    [st["seg"].__setitem__(i, x)]. *)
Definition segment_slot_set (st : value) (i : Z) (x : value) : result value :=
  rbind (py_getitem st (KStr "seg")) (fun seg =>
  rbind (method_setitem seg (KInt i) x) (fun seg' =>
  py_setitem st (KStr "seg") seg')).

(** The world with another state document. *)
Definition world_with_state (w : World) (st : value) : World :=
  mkWorld
    (with_docs (self w) st (info (self w)) (effects (self w))
       (palettes (self w)))
    (wire w) (files w).

(** The state document [{..., "nl": {..., "mode": n}}] that storing the
    mode [n] makes of the state document [d] with nightlight object [nl]. *)
Definition mode_stored (d nl : list (key * value)) (n : Z) : value :=
  VDict (dict_set d (KStr "nl") (VDict (dict_set nl (KStr "mode") (VInt n)))).

(** What the mode setter does with the integer its argument was turned
    into: it stores an integer of 0..3 and refuses any other. *)
Definition store_mode (p : ParentAccessor) (r : result Z) : M unit :=
  fun w =>
    match r with
    | Return n =>
        if (0 <=? n) && (n <=? 3) then _setter p (KStr "mode") (VInt n) w
        else (Raise ValueError, w)
    | Raise e => (Raise e, w)
    end.

(** ** Documents that JSON text represents *)

Definition is_str_key (k : key) : bool :=
  match k with
  | KStr _ => true
  | KInt _ => false
  end.

Fixpoint distinct (ks : list key) : bool :=
  match ks with
  | [] => true
  | k :: r => negb (existsb (key_eqb k) r) && distinct r
  end.

(** Every mapping of the document has only strings as keys. *)
Fixpoint str_keyed (v : value) : bool :=
  match v with
  | VList l => forallb str_keyed l
  | VDict d => forallb (fun kv => is_str_key (fst kv) && str_keyed (snd kv)) d
  | _ => true
  end.

(** The item lists stand for Python dicts: no key occurs twice. *)
Fixpoint dict_wf (v : value) : bool :=
  match v with
  | VList l => forallb dict_wf l
  | VDict d => distinct (map fst d) && forallb (fun kv => dict_wf (snd kv)) d
  | _ => true
  end.

(** Python's [a == b] on documents: a boolean equals the integer it is,
    sequences are compared in order and mappings key by key. *)
Fixpoint py_eq (a b : value) : bool :=
  match a, b with
  | VNone, VNone => true
  | VBool x, VBool y => Bool.eqb x y
  | VBool x, VInt y | VInt y, VBool x => (if x then 1 else 0) =? y
  | VInt x, VInt y => x =? y
  | VStr x, VStr y => String.eqb x y
  | VList l, VList m =>
      (fix all2 (l : list value) (m : list value) : bool :=
         match l, m with
         | [], [] => true
         | x :: l', y :: m' => py_eq x y && all2 l' m'
         | _, _ => false
         end) l m
  | VDict d, VDict e =>
      (List.length d =? List.length e)%nat &&
      (fix all_in (d : list (key * value)) : bool :=
         match d with
         | [] => true
         | (k, x) :: d' =>
             match dict_get e k with
             | Some y => py_eq x y && all_in d'
             | None => false
             end
         end) d
  | _, _ => false
  end.

(** The fuel the scanner uses on the text of a document. *)
Fixpoint need (v : value) : nat :=
  match v with
  | VList l => S (fold_right (fun x n => S (need x + n)%nat) O l)
  | VDict d => S (fold_right (fun kv n => S (need (snd kv) + n)%nat) O d)
  | _ => 1%nat
  end.

Definition elems_need (l : list value) : nat :=
  fold_right (fun x n => S (need x + n)%nat) O l.

Definition members_need (d : list (key * value)) : nat :=
  fold_right (fun kv n => S (need (snd kv) + n)%nat) O d.

(** The text after a value inside the text of a document: nothing, a comma
    or a closing bracket. *)
Definition closes (rest : string) : bool :=
  match rest with
  | EmptyString => true
  | String c _ =>
      let n := nat_of_ascii c in
      ((n =? 44) || (n =? 93) || (n =? 125))%nat
  end.

Definition digit_head (s : string) : bool :=
  match s with
  | String c _ => is_digit c
  | EmptyString => false
  end.

Definition starts_number (s : string) : bool :=
  match s with
  | String c _ => is_digit c || (nat_of_ascii c =? 45)%nat
  | EmptyString => false
  end.

(** The text starts neither with white space nor with a closing bracket. *)
Definition starts_value (s : string) : bool :=
  match s with
  | String c _ =>
      let n := nat_of_ascii c in
      negb (is_ws c) && negb (n =? 93)%nat && negb (n =? 125)%nat
  | EmptyString => false
  end.

(** The pairs the scanner collects for the members of a mapping. *)
Definition pairs_of (d : list (key * value)) : list (string * value) :=
  map (fun kv => (key_str (fst kv), snd kv)) d.

(** The text of one member of a mapping. *)
Definition member_text (kv : key * value) : string :=
  encode_str (key_str (fst kv)) ++ ": " ++ dumps (snd kv).

(** The scanner reads the document back from its text, whatever closes the
    text and with any fuel from [need] on. *)
Definition reads_back (v : value) : Prop :=
  forall fuel rest,
    (need v <= fuel)%nat -> closes rest = true ->
    parse_value fuel (dumps v ++ rest) = Some (v, rest).

(** A value without parts. *)
Definition atom (v : value) : Prop :=
  match v with
  | VList (_ :: _) | VDict (_ :: _) => False
  | _ => True
  end.

(** A document whose mappings have distinct string keys. *)
Definition plain (v : value) : Prop :=
  dict_wf v = true /\ str_keyed v = true.

(** Induction on documents, with the property assumed of the elements of a
    sequence and of the values of a mapping. *)
Fixpoint value_nested_ind (P : value -> Prop)
  (Hnone : P VNone) (Hbool : forall b, P (VBool b))
  (Hint : forall z, P (VInt z)) (Hstr : forall s, P (VStr s))
  (Hlist : forall l, Forall P l -> P (VList l))
  (Hdict : forall d, Forall (fun kv => P (snd kv)) d -> P (VDict d))
  (v : value) {struct v} : P v :=
  let rec_on := value_nested_ind P Hnone Hbool Hint Hstr Hlist Hdict in
  match v with
  | VNone => Hnone
  | VBool b => Hbool b
  | VInt z => Hint z
  | VStr s => Hstr s
  | VList l =>
      Hlist l
        (list_ind (Forall P) (Forall_nil P)
           (fun x _ IH => Forall_cons x (rec_on x) IH) l)
  | VDict d =>
      Hdict d
        (list_ind (Forall (fun kv => P (snd kv))) (Forall_nil _)
           (fun kv _ IH => Forall_cons kv (rec_on (snd kv)) IH) d)
  end.

(** ** Sample sessions *)

(** A device that reports one segment and keeps its segments in an object:
    it serves the state document [{"seg": {}}], the info document
    [{"leds": {"maxseg": 1}}] and empty lists of effects and palettes. *)
Definition object_device (_ : list request) (req : request) : option string :=
  match req with
  | GET url =>
      if String.eqb url "http://d/json/state" then
        Some (dumps (VDict [(KStr "seg", VDict [])]))
      else if String.eqb url "http://d/json/info" then
        Some (dumps (VDict [(KStr "leds", VDict [(KStr "maxseg", VInt 1)])]))
      else Some "[]"
  | POST _ _ => None
  end.

(** The world before a session is made: no request sent, no file. *)
Definition blank_world : World :=
  mkWorld (mkWLED EmptyString VNone VNone VNone VNone) [] [].

(** The session that [WLED("d")] makes with that device. *)
Definition object_segments_world : World :=
  mkWorld
    (mkWLED "d" (VDict [(KStr "seg", VDict [])])
       (VDict [(KStr "leds", VDict [(KStr "maxseg", VInt 1)])])
       (VList []) (VList []))
    [GET "http://d/json/state"; GET "http://d/json/info";
     GET "http://d/json/eff"; GET "http://d/json/pal"]
    [].

(** The state document [{"seg": {0: 5}}], with an integer key. *)
Definition int_key_state : value :=
  VDict [(KStr "seg", VDict [(KInt 0, VInt 5)])].

(** Every path that [open] takes, one without a NUL character, can be
    written. *)
Definition all_writable (path : string) : bool := negb (has_nul path).

(** A device that serves an empty state document and fails every other
    request. *)
Definition state_only_device (_ : list request) (req : request)
  : option string :=
  match req with
  | GET url => if String.eqb url "http://d/json/state" then Some "{}" else None
  | POST _ _ => None
  end.

(** A device that answers every request with the document [{}]. *)
Definition empty_device (_ : list request) (_ : request) : option string :=
  Some "{}".

(** A session whose state document is [{"on": True}]. *)
Definition lit_world : World :=
  mkWorld
    (mkWLED "d" (VDict [(KStr "on", VBool true)]) (VDict []) (VList [])
       (VList []))
    [] [].

(** A session whose info document is [{"leds": {"maxseg": 2}}] and whose
    state document is [{"seg": [{"start": 0}, {"start": 7}], "nl": {}}]. *)
Definition two_segment_world : World :=
  mkWorld
    (mkWLED "d"
       (VDict
          [(KStr "seg",
            VList [VDict [(KStr "start", VInt 0)];
                   VDict [(KStr "start", VInt 7)]]);
           (KStr "nl", VDict [])])
       (VDict [(KStr "leds", VDict [(KStr "maxseg", VInt 2)])])
       (VList []) (VList []))
    [] [].

(** ** Fields of a session *)

(** [st[k1][k2]...]: the item at the end of a path of keys. *)
Fixpoint get_path (st : value) (path : list key) : result value :=
  match path with
  | [] => Return st
  | k :: rest => rbind (py_getitem st k) (fun sub => get_path sub rest)
  end.

(** One step into a document, as the source takes it: the subscript
    [v[k]], or the method called by name, [v.__getitem__(k)] to read and
    [v.__setitem__(k, x)] to assign. *)
Inductive step : Type :=
| Item (k : key)
| Method (k : key).

Definition step_key (s : step) : key :=
  match s with
  | Item k => k
  | Method k => k
  end.

Definition get_step (v : value) (s : step) : result value :=
  match s with
  | Item k => py_getitem v k
  | Method k => method_getitem v k
  end.

Definition set_step (v : value) (s : step) (x : value) : result value :=
  match s with
  | Item k => py_setitem v k x
  | Method k => method_setitem v k x
  end.

(** The item at the end of a path of steps. *)
Fixpoint get_steps (st : value) (path : list step) : result value :=
  match path with
  | [] => Return st
  | s :: rest => rbind (get_step st s) (fun sub => get_steps sub rest)
  end.

(** The document after an assignment at the end of a path of steps: the
    objects on the way are looked up, the last step assigns; an object
    changed in place is still the one its parent holds. *)
Fixpoint set_steps (st : value) (path : list step) (x : value)
  : result value :=
  match path with
  | [] => Return x
  | [s] => set_step st s x
  | s :: rest =>
      rbind (get_step st s) (fun sub =>
      rbind (set_steps sub rest x) (fun sub' =>
      py_setitem st (step_key s) sub'))
  end.

(** The properties of a [PropertyWLED], of its nightlight view, of its
    segment list and of the view of segment [i]. *)
Inductive field : Type :=
| On
| Brightness
| Transition
| NightlightOn
| NightlightDuration
| NightlightMode
| NightlightTarget
| NightlightRemaining
| SegmentDuration
| SegmentStart (i : Z).

(** Reading a property. *)
Definition get_field (f : field) : M value :=
  match f with
  | On => PropertyWLED.on
  | Brightness => PropertyWLED.brightness
  | Transition => PropertyWLED.transition
  | NightlightOn => NightlightProperty.on PropertyWLED.nightlight
  | NightlightDuration =>
      NightlightProperty.duration_minutes PropertyWLED.nightlight
  | NightlightMode => NightlightProperty.mode PropertyWLED.nightlight
  | NightlightTarget =>
      NightlightProperty.target_brightness PropertyWLED.nightlight
  | NightlightRemaining =>
      NightlightProperty.remaining_seconds PropertyWLED.nightlight
  | SegmentDuration => SegmentListProperty.duration_minutes PropertyWLED.segment
  | SegmentStart i => SegmentItem.start (segment_view i)
  end.

(** Assigning to a property.  [remaining_seconds] has no setter: Python
    refuses the assignment with an AttributeError. *)
Definition set_field (f : field) (v : value) : M unit :=
  match f with
  | On => PropertyWLED.set_on v
  | Brightness => PropertyWLED.set_brightness v
  | Transition => PropertyWLED.set_transition v
  | NightlightOn => NightlightProperty.set_on PropertyWLED.nightlight v
  | NightlightDuration =>
      NightlightProperty.set_duration_minutes PropertyWLED.nightlight v
  | NightlightMode => NightlightProperty.set_mode PropertyWLED.nightlight v
  | NightlightTarget =>
      NightlightProperty.set_target_brightness PropertyWLED.nightlight v
  | NightlightRemaining => raise AttributeError
  | SegmentDuration =>
      SegmentListProperty.set_duration_minutes PropertyWLED.segment v
  | SegmentStart i => SegmentItem.set_start (segment_view i) v
  end.

(** Where the getter of a property reads in the state document: the
    properties of the session subscript it, the accessors of the views
    subscript it and call [__getitem__] on what they find. *)
Definition read_path (f : field) : list step :=
  match f with
  | On => [Item (KStr "on")]
  | Brightness => [Item (KStr "bri")]
  | Transition => [Item (KStr "transition")]
  | NightlightOn => [Item (KStr "nl"); Method (KStr "on")]
  | NightlightDuration => [Item (KStr "nl"); Method (KStr "dur")]
  | NightlightMode => [Item (KStr "nl"); Method (KStr "mode")]
  | NightlightTarget => [Item (KStr "nl"); Method (KStr "tbri")]
  | NightlightRemaining => [Item (KStr "nl"); Method (KStr "rem")]
  | SegmentDuration => [Item (KStr "seg"); Method (KStr "dur")]
  | SegmentStart i =>
      [Item (KStr "seg"); Method (KInt i); Item (KStr "start")]
  end.

(** Where the setter of a property writes. *)
Definition write_path (f : field) : list step :=
  match f with
  | SegmentStart i => [Item (KStr "seg"); Method (KInt i)]
  | _ => read_path f
  end.

(** The integer the mode setter makes of its argument. *)
Definition mode_value (v : value) : result Z :=
  rbind
    match NightlightProperty._MODE_MAP_getitem v with
    | Return x => Return x
    | Raise KeyError => Return v
    | Raise e => Raise e
    end
    (fun v => rbind (py_int v) (fun n => _verify_range (VInt n) 0 3)).

(** The value the setter of a property stores for its argument. *)
Definition validated (f : field) (v : value) : result value :=
  match f with
  | On | NightlightOn => rbind (_verify_bool v) (fun b => Return (VBool b))
  | NightlightMode => rbind (mode_value v) (fun n => Return (VInt n))
  | NightlightRemaining => Raise AttributeError
  | _ => rbind (_verify_int8bit v) (fun n => Return (VInt n))
  end.

(** The values that fit a property: a boolean for the two switches, an
    integer of 0..3 for the mode, an integer of 1..255 for the others. *)
Definition fits (f : field) (x : value) : Prop :=
  match f with
  | On | NightlightOn => exists b, x = VBool b
  | NightlightMode => exists n, x = VInt n /\ 0 <= n <= 3
  | _ => exists n, x = VInt n /\ 1 <= n <= 255
  end.

Definition is_segment_start (f : field) : bool :=
  match f with
  | SegmentStart _ => true
  | _ => false
  end.

(** Whether [st["seg"]] is a mapping. *)
Definition seg_is_dict (st : value) : bool :=
  match get_path st [KStr "seg"] with
  | Return (VDict _) => true
  | _ => false
  end.

(** ** Operations of a session *)

Inductive op : Type :=
| OpPull
| OpPush (get_resp : bool)
| OpSave (file_name : string)
| OpLoad (file_name : string)
| OpReboot
| OpLoaded
| OpIndex (i : Z)
| OpGet (f : field)
| OpSet (f : field) (v : value).

(** Running an operation for its effect on the world. *)
Definition run_op (device : list request -> request -> option string)
  (writable : string -> bool) (o : op) : M unit :=
  match o with
  | OpPull => pull_state device
  | OpPush get_resp => push_state device get_resp
  | OpSave file_name => save_state_file writable file_name
  | OpLoad file_name => load_state_file file_name
  | OpReboot => PropertyWLED.reboot_wled device
  | OpLoaded => loaded ;;; ret tt
  | OpIndex i =>
      SegmentListProperty.__getitem__ PropertyWLED.segment i ;;; ret tt
  | OpGet f => get_field f ;;; ret tt
  | OpSet f v => set_field f v
  end.

(** The operations that put no integer key into the state document: all
    but setting a segment start while [st["seg"]] is a mapping. *)
Definition keeps_keys (o : op) (st : value) : bool :=
  match o with
  | OpSet (SegmentStart _) _ => negb (seg_is_dict st)
  | _ => true
  end.

(** A path written and a path read that part at a key of a mapping: along
    the same keys first, then the written path has a string key and the
    read path another key. *)
Inductive apart : list step -> list step -> Prop :=
| apart_here a s s' p q :
    step_key s = KStr a -> step_key s' <> KStr a -> apart (s :: p) (s' :: q)
| apart_next s p q : apart p q -> apart (s :: p) (s :: q).

(** A document that is a mapping, and one that has a length. *)
Definition mapping (v : value) : Prop := exists d, v = VDict d.

Definition sized (v : value) : Prop :=
  (exists s, v = VStr s) \/ (exists l, v = VList l) \/ exists d, v = VDict d.

(** The sub-object of the state document a property lives in, if any. *)
Definition sub_object (f : field) : option string :=
  match f with
  | On | Brightness | Transition => None
  | SegmentDuration | SegmentStart _ => Some "seg"
  | _ => Some "nl"
  end.


(** The world a list of operations leaves, each one run in what the one
    before left, whether it raised (and was caught) or not. *)
Fixpoint session_after (device : list request -> request -> option string)
  (writable : string -> bool) (ops : list op) (w : World) : World :=
  match ops with
  | [] => w
  | o :: rest =>
      session_after device writable rest (snd (run_op device writable o w))
  end.

(** Every operation of the list keeps the keys of the state document it
    finds. *)
Fixpoint keep_keys (device : list request -> request -> option string)
  (writable : string -> bool) (ops : list op) (w : World) : bool :=
  match ops with
  | [] => true
  | o :: rest =>
      keeps_keys o (state (self w)) &&
      keep_keys device writable rest (snd (run_op device writable o w))
  end.

(** The operation that writes a file. *)
Definition is_save (o : op) : bool :=
  match o with
  | OpSave _ => true
  | _ => false
  end.

(** ** The script *)




(** ** The transport *)

Lemma str_join_url ip endpoint :
  str_join "/" ["http:/"; ip; "json"; endpoint] = endpoint_url ip endpoint.
Proof.
  unfold endpoint_url. simpl.
  change ("http://" ++ ip ++ "/json/" ++ endpoint)
    with (String "h" (String "t" (String "t" (String "p" (String ":"
            (String "/" (String "/" (ip ++ "/json/" ++ endpoint)))))))).
  reflexivity.
Qed.

(** A fetch touches neither the session object nor the files: it only adds
    its request to the traffic. *)
Lemma get_json_frame device endpoint w r w' :
  get_json device endpoint w = (r, w') ->
  self w' = self w /\ files w' = files w /\
  wire w' = (wire w ++ [GET (endpoint_url (ip_addr (self w)) endpoint)])%list.
Proof.
  unfold get_json, bind, get_self, http, lift. rewrite str_join_url.
  destruct (device _ _); intros H; inversion H; subst; simpl; auto.
Qed.


(** ** Method calls *)

(** A call of [__getitem__] or [__setitem__] by name and the subscript
    differ in the exception raised on an object without the method only:
    when either returns, so does the other, with the same result. *)
Lemma method_getitem_return v k x :
  method_getitem v k = Return x <-> py_getitem v k = Return x.
Proof. destruct v; simpl; split; congruence. Qed.

Lemma method_setitem_return v k x v' :
  method_setitem v k x = Return v' <-> py_setitem v k x = Return v'.
Proof. destruct v; simpl; split; congruence. Qed.

Lemma get_step_return v s x :
  get_step v s = Return x <-> py_getitem v (step_key s) = Return x.
Proof.
  destruct s; simpl; [ reflexivity | apply method_getitem_return ].
Qed.

Lemma set_step_return v s x v' :
  set_step v s x = Return v' <-> py_setitem v (step_key s) x = Return v'.
Proof.
  destruct s; simpl; [ reflexivity | apply method_setitem_return ].
Qed.

Lemma get_step_dict d s :
  get_step (VDict d) s = py_getitem (VDict d) (step_key s).
Proof. destruct s; reflexivity. Qed.

(** A path that can be followed with subscripts can be followed with the
    steps of the source, to the same item. *)
Lemma get_steps_of_path p : forall st x,
  get_path st (map step_key p) = Return x -> get_steps st p = Return x.
Proof.
  induction p as [ | s p IH]; intros st x; simpl; [ auto | ].
  destruct (py_getitem st (step_key s)) as [sub | e] eqn:E; simpl;
    [ | discriminate ].
  apply get_step_return in E. rewrite E. simpl. apply IH.
Qed.

(** ** Validators *)

Lemma py_bool_false_iff (v : value) : py_bool v = false <-> falsy v.
Proof.
  split.
  - destruct v as [ | b | z | s | l | d]; simpl; intros H.
    + constructor.
    + subst b. constructor.
    + apply negb_false_iff, Z.eqb_eq in H. subst z. constructor.
    + apply negb_false_iff, String.eqb_eq in H. subst s. constructor.
    + destruct l; [constructor | discriminate].
    + destruct d; [constructor | discriminate].
  - destruct 1; reflexivity.
Qed.

(** C5: on an integer the 8-bit validator returns that integer exactly when
    it lies in 1..255, and raises ValueError (the spec's ValidationError)
    exactly when it does not. *)
Theorem verify_int8bit_range (v : Z) :
  (_verify_int8bit (VInt v) = Return v <-> 1 <= v <= 255) /\
  (_verify_int8bit (VInt v) = Raise ValueError <-> ~ (1 <= v <= 255)).
Proof.
  unfold _verify_int8bit; simpl.
  destruct (v >? 255) eqn:Hhi; destruct (v <? 1) eqn:Hlo; simpl;
    rewrite ?Z.gtb_lt, ?Z.ltb_lt in *;
    try (apply Z.gtb_ltb in Hhi || rewrite Z.gtb_ltb in Hhi);
    rewrite ?Z.ltb_lt, ?Z.ltb_ge in *;
    (split; split; intros H; try discriminate; try reflexivity; try lia).
Qed.

(** C9: the boolean validator returns on every document, with [false]
    exactly on the falsy ones and [true] on all the others; it runs without
    touching the world, so that all the [on] setter of a session changes is
    the field it stores the boolean in. *)
Theorem verify_bool_total (v : value) :
  exists b : bool,
    _verify_bool v = Return b /\
    (b = false <-> falsy v) /\ (b = true <-> ~ falsy v) /\
    (forall w, lift (_verify_bool v) w = (Return b, w)) /\
    (forall w,
        PropertyWLED.set_on v w =
        match py_setitem (state (self w)) (KStr "on") (VBool b) with
        | Return st' => (Return tt, world_with_state w st')
        | Raise e => (Raise e, w)
        end).
Proof.
  exists (py_bool v). split; [ reflexivity | ].
  split; [ apply py_bool_false_iff | ].
  split; [ rewrite <- py_bool_false_iff;
           destruct (py_bool v); split; congruence | ].
  split; [ reflexivity | ].
  intros w.
  unfold PropertyWLED.set_on, bind, lift, get_state, get_self, set_state,
    set_self, ret, world_with_state, with_docs; simpl.
  destruct (py_setitem _ _ _); reflexivity.
Qed.

(** ** Pull and push *)

Ltac run_transport device :=
  repeat match goal with
    | |- context [device ?log ?req] => destruct (device log req); simpl
    | |- context [loads ?text] => destruct (loads text); simpl
    end.

(** A fetch returns what the answer of the device stands for. *)
Lemma get_json_answer device endpoint w :
  get_json device endpoint w =
  (answer device (wire w) (ip_addr (self w)) endpoint,
   mkWorld (self w)
     (wire w ++ [GET (endpoint_url (ip_addr (self w)) endpoint)])
     (files w)).
Proof.
  unfold get_json, bind, get_self, http, lift, answer.
  rewrite str_join_url. destruct (device _ _); reflexivity.
Qed.

Lemma fetched_nil w : fetched w [] = wire w.
Proof. unfold fetched. simpl. apply List.app_nil_r. Qed.

Ltac close_failure :=
  cbn [self wire files];
  repeat (split; [ reflexivity | ]);
  first [ reflexivity
        | split;
          [ unfold fetched; simpl; now rewrite <- ?List.app_assoc
          | reflexivity ] ].

Lemma pull_state_failure device w e w' :
  pull_state device w = (Raise e, w') ->
  left_by_failure device Pull e w w' /\ files w' = files w.
Proof.
  unfold pull_state, bind, left_by_failure. rewrite fetched_nil.
  rewrite get_json_answer.
  destruct (answer device (wire w) (ip_addr (self w)) "state")
    as [st | e1] eqn:E1;
    [ | intros H; inversion H; subst; split; [ left | ]; close_failure ].
  unfold set_state at 1, set_self, get_self, bind. rewrite get_json_answer.
  cbn [self wire files ip_addr].
  change (wire w ++ [GET (endpoint_url (ip_addr (self w)) "state")])%list
    with (fetched w ["state"]).
  destruct (answer device (fetched w ["state"]) (ip_addr (self w)) "info")
    as [inf | e2] eqn:E2;
    [ | intros H; inversion H; subst; split;
        [ right; left; exists st | ]; close_failure ].
  unfold set_info at 1, set_self, get_self, bind. rewrite get_json_answer.
  cbn [self wire files ip_addr state info effects palettes].
  replace (fetched w ["state"] ++
           [GET (endpoint_url (ip_addr (self w)) "info")])%list
    with (fetched w ["state"; "info"])
    by (unfold fetched; simpl; now rewrite <- List.app_assoc).
  destruct (answer device (fetched w ["state"; "info"]) (ip_addr (self w))
              "eff") as [eff | e3] eqn:E3;
    [ | intros H; inversion H; subst; split;
        [ right; right; left; exists st, inf | ]; close_failure ].
  unfold set_effects at 1, set_self, get_self, bind. rewrite get_json_answer.
  cbn [self wire files ip_addr state info effects palettes].
  replace (fetched w ["state"; "info"] ++
           [GET (endpoint_url (ip_addr (self w)) "eff")])%list
    with (fetched w ["state"; "info"; "eff"])
    by (unfold fetched; simpl; now rewrite <- List.app_assoc).
  destruct (answer device (fetched w ["state"; "info"; "eff"])
              (ip_addr (self w)) "pal") as [pal | e4] eqn:E4;
    [ intros H; inversion H
    | intros H; inversion H; subst; split;
        [ right; right; right; exists st, inf, eff | ]; close_failure ].
Qed.

Lemma push_state_failure device get_resp w e w' :
  push_state device get_resp w = (Raise e, w') ->
  left_by_failure device (Push get_resp) e w w' /\ files w' = files w.
Proof.
  unfold push_state, left_by_failure, with_docs, verbose.
  destruct get_resp;
    unfold bind, _state_url, get_state, get_self, http, lift, ret, set_state,
      set_self; simpl.
  - destruct (self w) as [ip st inf eff pal] eqn:Eo; simpl.
    destruct st; simpl;
      try solve [intros H; inversion H; subst; simpl; auto].
    run_transport device; intros H; inversion H; subst; simpl;
      rewrite ?Eo; simpl; auto.
  - run_transport device; intros H; inversion H; subst; simpl; auto.
Qed.

(** C1 (as amended): a pull or a push that raises has changed the session
    object only as far as it got, and nothing is rolled back.  A pull has
    replaced each document fetched before the failing fetch by the document
    the device answered with, has left the others as they were (all four
    when the first fetch fails), and raises what the failing fetch raised;
    a push without response has changed nothing, and a push with response
    has merged the verbose flag into the state document and changed nothing
    else.  The files are as they were. *)
Theorem failed_call_leaves device c w e w'
  (Hfail : run device c w = (Raise e, w')) :
  left_by_failure device c e w w' /\ files w' = files w.
Proof.
  destruct c; simpl in Hfail.
  - eapply pull_state_failure; eassumption.
  - eapply push_state_failure; eassumption.
Qed.

(** The amended statement at a pull whose second fetch fails. *)
Lemma failed_call_leaves_witness :
  run state_only_device Pull lit_world =
  (Raise RequestException,
   mkWorld (mkWLED "d" (VDict []) (VDict []) (VList []) (VList []))
     [GET "http://d/json/state"; GET "http://d/json/info"] []) /\
  left_by_failure state_only_device Pull RequestException lit_world
    (mkWorld (mkWLED "d" (VDict []) (VDict []) (VList []) (VList []))
       [GET "http://d/json/state"; GET "http://d/json/info"] []).
Proof.
  split; [ reflexivity | ].
  apply (failed_call_leaves state_only_device Pull lit_world RequestException
           (mkWorld (mkWLED "d" (VDict []) (VDict []) (VList []) (VList []))
              [GET "http://d/json/state"; GET "http://d/json/info"] [])).
  reflexivity.
Defined.

(** C1 (as stated) fails: a pull whose second fetch raises has already
    replaced the state document, and a push with response that raises has
    already merged the verbose flag into it. *)
Lemma failed_call_changes_state :
  (exists e w',
      pull_state state_only_device lit_world = (Raise e, w') /\
      state (self w') = VDict [] /\
      state (self w') <> state (self lit_world)) /\
  (exists e w',
      push_state state_only_device true lit_world = (Raise e, w') /\
      state (self w') =
      VDict [(KStr "on", VBool true); (KStr "v", VBool true)] /\
      state (self w') <> state (self lit_world)).
Proof.
  split.
  - exists RequestException. eexists. split; [ reflexivity | ].
    split; [ reflexivity | discriminate ].
  - exists RequestException. eexists. split; [ reflexivity | ].
    split; [ reflexivity | discriminate ].
Qed.

(** A push that expects no response posts the state document as it is and
    leaves the session object as it was, whatever the device answers. *)
Lemma push_state_plain device w :
  push_state device false w =
  (match
     device (wire w)
       (POST (endpoint_url (ip_addr (self w)) "state") (state (self w)))
   with
   | Some _ => Return tt
   | None => Raise RequestException
   end,
   mkWorld (self w)
     (wire w ++
      [POST (endpoint_url (ip_addr (self w)) "state") (state (self w))])
     (files w)).
Proof.
  unfold push_state, bind, _state_url, get_state, get_self, http, lift, ret,
    endpoint_url.
  simpl. destruct (device _ _); reflexivity.
Qed.

(** C3: a push without response posts the state document unchanged and
    leaves it unchanged whatever comes back; a push with response merges
    the verbose flag into the state document, posts the merged document,
    and replaces the state document by the parsed response. *)
Theorem push_state_sends device w d text v
  (Hdict : state (self w) = VDict d)
  (Hanswer :
     device (wire w)
       (POST (endpoint_url (ip_addr (self w)) "state")
          (verbose (state (self w)))) = Some text)
  (Hjson : loads text = Return v) :
  (exists r,
      push_state device false w =
      (r,
       mkWorld (self w)
         (wire w ++
          [POST (endpoint_url (ip_addr (self w)) "state") (state (self w))])
         (files w))) /\
  push_state device true w =
  (Return tt,
   mkWorld
     (with_docs (self w) v (info (self w)) (effects (self w))
        (palettes (self w)))
     (wire w ++
      [POST (endpoint_url (ip_addr (self w)) "state")
         (VDict (dict_set d (KStr "v") (VBool true)))])
     (files w)).
Proof.
  split.
  - eexists. apply push_state_plain.
  - revert Hanswer. unfold verbose. rewrite Hdict.
    unfold push_state, bind, _state_url, get_state, get_self, http, lift, ret,
      set_state, set_self, with_docs, endpoint_url.
    simpl. rewrite Hdict. simpl.
    intros ->. rewrite Hjson. reflexivity.
Qed.

(** C3 on the session [{"on": True}] and a device answering [{}]. *)
Lemma push_state_sends_witness :
  push_state empty_device true lit_world =
  (Return tt,
   mkWorld (mkWLED "d" (VDict []) (VDict []) (VList []) (VList []))
     [POST "http://d/json/state"
        (VDict [(KStr "on", VBool true); (KStr "v", VBool true)])]
     []).
Proof.
  apply (push_state_sends empty_device lit_world
           [(KStr "on", VBool true)] "{}" (VDict [])
           eq_refl eq_refl eq_refl).
Defined.

(** ** The loaded flag *)

(** C6: on a session whose state and info documents are mappings and whose
    effects and palettes are sequences, [loaded] returns, changes nothing,
    and is true exactly when none of the four is empty. *)
Theorem loaded_iff_nonempty ip st inf eff pal sent fs :
  exists b : bool,
    loaded
      (mkWorld (mkWLED ip (VDict st) (VDict inf) (VList eff) (VList pal))
         sent fs) =
    (Return b,
     mkWorld (mkWLED ip (VDict st) (VDict inf) (VList eff) (VList pal))
       sent fs) /\
    (b = true <-> st <> [] /\ inf <> [] /\ eff <> [] /\ pal <> []) /\
    (b = false <-> st = [] \/ inf = [] \/ eff = [] \/ pal = []).
Proof.
  eexists. split; [ reflexivity | ].
  destruct st, inf, eff, pal; simpl; repeat split;
    intros; try discriminate; try tauto; try congruence;
    intuition (try discriminate).
Qed.

(** ** Segment views *)

(** C2 (as amended): with [maxseg = m] in the info document, indexing the
    segment list with [i] returns the view bound to [i] exactly when
    [i < m], and returns [None] without raising otherwise; no lower bound is
    checked.  With [m = 2], indices 0 and 1 give views and index 2 gives
    [None]. *)
Theorem segment_getitem_below_maxseg w leds m i
  (Hleds : py_getitem (info (self w)) (KStr "leds") = Return leds)
  (Hmax : py_getitem leds (KStr "maxseg") = Return (VInt m)) :
  SegmentListProperty.__getitem__ PropertyWLED.segment i w =
  (Return (if i <? m then Some (segment_view i) else None), w) /\
  (m = 2 ->
   SegmentListProperty.__getitem__ PropertyWLED.segment 0 w =
   (Return (Some (segment_view 0)), w) /\
   SegmentListProperty.__getitem__ PropertyWLED.segment 1 w =
   (Return (Some (segment_view 1)), w) /\
   SegmentListProperty.__getitem__ PropertyWLED.segment 2 w =
   (Return None, w)).
Proof.
  assert (Hget : forall j,
    SegmentListProperty.__getitem__ PropertyWLED.segment j w =
    (Return (if j <? m then Some (segment_view j) else None), w)).
  { intros j.
    unfold SegmentListProperty.__getitem__, PropertyWLED.segment,
      PropertyWLED._segment_interface, PropertyWLED.info_get, bind, get_info,
      get_self, lift, ret; simpl.
    apply method_getitem_return in Hleds.
    rewrite Hleds, Hmax; simpl. destruct (j <? m); reflexivity. }
  split; [ apply Hget | ].
  intros ->. rewrite !Hget. repeat split.
Qed.

(** The amended C2 on the session with [maxseg = 2]. *)
Lemma segment_getitem_below_maxseg_witness :
  SegmentListProperty.__getitem__ PropertyWLED.segment 0 two_segment_world =
  (Return (Some (segment_view 0)), two_segment_world) /\
  SegmentListProperty.__getitem__ PropertyWLED.segment 1 two_segment_world =
  (Return (Some (segment_view 1)), two_segment_world) /\
  SegmentListProperty.__getitem__ PropertyWLED.segment 2 two_segment_world =
  (Return None, two_segment_world).
Proof.
  exact (proj2 (segment_getitem_below_maxseg two_segment_world
                  (VDict [(KStr "maxseg", VInt 2)]) 2 0 eq_refl eq_refl)
           eq_refl).
Defined.

(** C2 (as stated) fails: with [maxseg = 2] the index [-1], which is not in
    [0 <= i < 2], is given a view. *)
Lemma segment_getitem_negative_index :
  SegmentListProperty.__getitem__ PropertyWLED.segment (-1) two_segment_world =
  (Return (Some (segment_view (-1))), two_segment_world) /\
  ~ (0 <= -1 < 2).
Proof. split; [ reflexivity | lia ]. Qed.

Lemma key_eqb_refl k : key_eqb k k = true.
Proof. destruct k; simpl; [ apply String.eqb_refl | apply Z.eqb_refl ]. Qed.

Lemma dict_get_set d k x : dict_get (dict_set d k x) k = Some x.
Proof.
  induction d as [ | [k' v'] d IH]; simpl.
  - now rewrite key_eqb_refl.
  - destruct (key_eqb k' k) eqn:E; simpl; rewrite E; auto.
Qed.

Lemma length_list_set {A} (l : list A) n a :
  List.length (list_set l n a) = List.length l.
Proof.
  revert n; induction l as [ | x l IH]; intros [ | n]; simpl; auto.
Qed.

Lemma nth_error_list_set {A} (l : list A) n a :
  (n < List.length l)%nat -> nth_error (list_set l n a) n = Some a.
Proof.
  revert n; induction l as [ | x l IH]; intros [ | n]; simpl; intros H;
    try lia; auto.
  apply IH. lia.
Qed.

Lemma seq_index_lt len i n : seq_index len i = Some n -> (n < len)%nat.
Proof.
  unfold seq_index.
  destruct ((0 <=? _) && (_ <? _)) eqn:E; [ | discriminate ].
  apply andb_true_iff in E. destruct E as [E1 E2].
  apply Z.leb_le in E1. apply Z.ltb_lt in E2.
  intros H; inversion H; subst. lia.
Qed.

(** Reading back the item just written. *)
Lemma py_getitem_setitem v k x v' :
  py_setitem v k x = Return v' -> py_getitem v' k = Return x.
Proof.
  destruct v as [ | b | z | s | l | d]; simpl; try discriminate.
  - destruct k as [s | i]; [ discriminate | ].
    destruct (seq_index (List.length l) i) as [n | ] eqn:E; [ | discriminate ].
    intros H; inversion H; subst; simpl.
    rewrite length_list_set, E.
    rewrite nth_error_list_set; [ reflexivity | ].
    eapply seq_index_lt; eassumption.
  - intros H; inversion H; subst; simpl. now rewrite dict_get_set.
Qed.

Lemma segment_slot_after_set st i x st' :
  segment_slot_set st i x = Return st' -> segment_slot st' i = Return x.
Proof.
  unfold segment_slot_set, segment_slot.
  destruct (py_getitem st (KStr "seg")) as [seg | e]; simpl; [ | discriminate ].
  destruct (method_setitem seg (KInt i) x) as [seg' | e] eqn:Eseg; simpl;
    [ | discriminate ].
  intros Hst. rewrite (py_getitem_setitem _ _ _ _ Hst). simpl.
  apply method_setitem_return in Eseg.
  apply method_getitem_return. eapply py_getitem_setitem; eassumption.
Qed.

Lemma segment_start_reads i w :
  SegmentItem.start (segment_view i) w =
  (rbind (segment_slot (state (self w)) i)
     (fun item => py_getitem item (KStr "start")), w).
Proof.
  unfold SegmentItem.start, SegmentItem._this_item, segment_view,
    segment_slot, PropertyWLED.segment, PropertyWLED._segment_interface,
    PropertyWLED.sub_get, bind, get_state, get_self, lift, ret; simpl.
  destruct (py_getitem (state (self w)) (KStr "seg")) as [seg | e]; simpl;
    [ | reflexivity ].
  destruct (method_getitem seg (KInt i)); reflexivity.
Qed.

Lemma segment_set_start_writes i v w :
  SegmentItem.set_start (segment_view i) v w =
  match _verify_int8bit v with
  | Return n =>
      match segment_slot_set (state (self w)) i (VInt n) with
      | Return st' => (Return tt, world_with_state w st')
      | Raise e => (Raise e, w)
      end
  | Raise e => (Raise e, w)
  end.
Proof.
  unfold SegmentItem.set_start, segment_view, segment_slot_set,
    PropertyWLED.segment, PropertyWLED._segment_interface,
    PropertyWLED.sub_set, bind, get_state, get_self, set_state, set_self,
    lift, ret, world_with_state, with_docs; simpl.
  destruct (_verify_int8bit v) as [n | e]; [ | reflexivity ].
  destruct (py_getitem (state (self w)) (KStr "seg")) as [seg | e]; simpl;
    [ | reflexivity ].
  destruct (method_setitem seg (KInt i) (VInt n)) as [seg' | e]; simpl;
    [ | reflexivity ].
  destruct (py_setitem (state (self w)) (KStr "seg") seg'); reflexivity.
Qed.

Lemma verify_int8bit_bounds v n :
  _verify_int8bit v = Return n -> 1 <= n <= 255.
Proof.
  unfold _verify_int8bit. destruct (py_int v) as [z | e]; simpl;
    [ | discriminate ].
  destruct (z >? 255) eqn:Hhi; destruct (z <? 1) eqn:Hlo; simpl;
    try discriminate.
  intros H; inversion H; subst.
  rewrite Z.gtb_ltb in Hhi. apply Z.ltb_ge in Hhi, Hlo. lia.
Qed.

(** C8: the start getter of the view bound to [i] reads
    [state["seg"][i]["start"]]; the start setter validates its argument with
    the 8-bit validator and assigns the validated integer to
    [state["seg"][i]] itself, so that after a successful set the slot holds
    that integer and has no start field left to read. *)
Theorem segment_start_slot i v w :
  SegmentItem.start (segment_view i) w =
  (rbind (segment_slot (state (self w)) i)
     (fun item => py_getitem item (KStr "start")), w) /\
  SegmentItem.set_start (segment_view i) v w =
  match _verify_int8bit v with
  | Return n =>
      match segment_slot_set (state (self w)) i (VInt n) with
      | Return st' => (Return tt, world_with_state w st')
      | Raise e => (Raise e, w)
      end
  | Raise e => (Raise e, w)
  end /\
  (forall w',
      SegmentItem.set_start (segment_view i) v w = (Return tt, w') ->
      exists n,
        _verify_int8bit v = Return n /\ 1 <= n <= 255 /\
        segment_slot (state (self w')) i = Return (VInt n) /\
        SegmentItem.start (segment_view i) w' = (Raise TypeError, w')).
Proof.
  split; [ apply segment_start_reads | ].
  split; [ apply segment_set_start_writes | ].
  intros w' Hset. rewrite segment_set_start_writes in Hset.
  destruct (_verify_int8bit v) as [n | e] eqn:Hvalid; [ | discriminate ].
  destruct (segment_slot_set (state (self w)) i (VInt n)) as [st' | e] eqn:E;
    [ | discriminate ].
  inversion Hset; subst; clear Hset. simpl.
  pose proof (segment_slot_after_set _ _ _ _ E) as Hslot.
  exists n. split; [ reflexivity | ].
  split; [ eapply verify_int8bit_bounds; eassumption | ].
  split; [ assumption | ].
  rewrite segment_start_reads. simpl. rewrite Hslot. reflexivity.
Qed.

(** C8 on the session with two segments: the start of segment 1 reads 7,
    and setting it to 9 turns [state["seg"][1]] into 9. *)
Lemma segment_start_slot_witness :
  SegmentItem.start (segment_view 1) two_segment_world =
  (Return (VInt 7), two_segment_world) /\
  exists n,
    _verify_int8bit (VInt 9) = Return n /\ 1 <= n <= 255 /\
    segment_slot
      (VDict
         [(KStr "seg", VList [VDict [(KStr "start", VInt 0)]; VInt 9]);
          (KStr "nl", VDict [])]) 1 = Return (VInt n) /\
    SegmentItem.start (segment_view 1)
      (world_with_state two_segment_world
         (VDict
            [(KStr "seg", VList [VDict [(KStr "start", VInt 0)]; VInt 9]);
             (KStr "nl", VDict [])])) =
    (Raise TypeError,
     world_with_state two_segment_world
       (VDict
          [(KStr "seg", VList [VDict [(KStr "start", VInt 0)]; VInt 9]);
           (KStr "nl", VDict [])])).
Proof.
  destruct (segment_start_slot 1 (VInt 9) two_segment_world)
    as (Hget & _ & Hafter).
  split; [ exact Hget | ].
  exact (Hafter _ eq_refl).
Defined.

(** ** The nightlight mode *)

Lemma set_mode_unmapped p v w :
  NightlightProperty._MODE_MAP_getitem v = Raise KeyError ->
  NightlightProperty.set_mode p v w = store_mode p (py_int v) w.
Proof.
  intros Hkey. unfold NightlightProperty.set_mode, store_mode. rewrite Hkey.
  unfold bind, ret, lift, _verify_range; simpl.
  destruct (py_int v) as [n | e]; simpl; [ | reflexivity ].
  rewrite Z.gtb_ltb.
  destruct (3 <? n) eqn:Hhi; destruct (n <? 0) eqn:Hlo; simpl;
    rewrite ?Z.ltb_lt, ?Z.ltb_ge in *;
    destruct (0 <=? n) eqn:H0; destruct (n <=? 3) eqn:H3; simpl;
    rewrite ?Z.leb_le, ?Z.leb_gt in *; try lia; reflexivity.
Qed.

Lemma set_mode_mapped p s n w :
  NightlightProperty.assoc NightlightProperty._MODE_MAP s = Some n ->
  NightlightProperty.set_mode p (VStr s) w = store_mode p (Return n) w.
Proof.
  intros Hkey.
  unfold NightlightProperty.set_mode, NightlightProperty._MODE_MAP_getitem,
    store_mode.
  rewrite Hkey.
  unfold bind, ret, lift, _verify_range; simpl.
  rewrite Z.gtb_ltb.
  destruct (3 <? n) eqn:Hhi; destruct (n <? 0) eqn:Hlo; simpl;
    rewrite ?Z.ltb_lt, ?Z.ltb_ge in *;
    destruct (0 <=? n) eqn:H0; destruct (n <=? 3) eqn:H3; simpl;
    rewrite ?Z.leb_le, ?Z.leb_gt in *; try lia; reflexivity.
Qed.

(** The strings the mode map has as keys. *)
Lemma mode_map_keys s :
  NightlightProperty.assoc NightlightProperty._MODE_MAP s <> None <->
  s = "instant" \/ s = "fade" \/ s = "color fade" \/ s = "sunrise".
Proof.
  unfold NightlightProperty._MODE_MAP, NightlightProperty.MODE_INSTANT,
    NightlightProperty.MODE_FADE, NightlightProperty.MODE_COLOR_FADE,
    NightlightProperty.MODE_SUNRISE; cbn [NightlightProperty.assoc].
  destruct (String.eqb_spec "instant" s) as [<- | H1];
    [ intuition congruence | ].
  destruct (String.eqb_spec "fade" s) as [<- | H2]; [ intuition congruence | ].
  destruct (String.eqb_spec "color fade" s) as [<- | H3];
    [ intuition congruence | ].
  destruct (String.eqb_spec "sunrise" s) as [<- | H4];
    [ intuition congruence | ].
  split; [ intros H; exfalso; apply H; reflexivity | ].
  intros [H | [H | [H | H]]]; subst; congruence.
Qed.

(** Storing a mode through the nightlight view of a [PropertyWLED] whose
    state document has a nightlight object, and reading it back. *)
Lemma nightlight_store_mode w d nl n :
  state (self w) = VDict d ->
  dict_get d (KStr "nl") = Some (VDict nl) ->
  _setter PropertyWLED.nightlight (KStr "mode") (VInt n) w =
  (Return tt, world_with_state w (mode_stored d nl n)) /\
  NightlightProperty.mode PropertyWLED.nightlight
    (world_with_state w (mode_stored d nl n)) =
  (Return (VInt n), world_with_state w (mode_stored d nl n)).
Proof.
  intros Hst Hnl.
  unfold PropertyWLED.nightlight, PropertyWLED._nightlight_interface,
    NightlightProperty.mode, PropertyWLED.sub_set, PropertyWLED.sub_get, bind,
    get_state, get_self, set_state, set_self, lift, ret, world_with_state,
    with_docs, mode_stored.
  simpl. rewrite Hst. simpl. rewrite Hnl. simpl.
  rewrite !dict_get_set. simpl. rewrite !dict_get_set.
  split; reflexivity.
Qed.

(** C4: through the nightlight view of a session whose state document has
    a nightlight object, the mode setter stores 1 for the name ["fade"],
    raises ValueError (the spec's ValidationError) and stores nothing for
    the integer 4, stores 2 for the integer 2, and hands a string that is
    no key of the mode map to [int], storing the result when it lies in
    0..3 and raising otherwise. *)
Theorem nightlight_mode_setter w d nl s
  (Hstate : state (self w) = VDict d)
  (Hnl : dict_get d (KStr "nl") = Some (VDict nl))
  (Hunknown : NightlightProperty.assoc NightlightProperty._MODE_MAP s = None) :
  (NightlightProperty.set_mode PropertyWLED.nightlight (VStr "fade") w =
   (Return tt, world_with_state w (mode_stored d nl 1)) /\
   NightlightProperty.mode PropertyWLED.nightlight
     (world_with_state w (mode_stored d nl 1)) =
   (Return (VInt 1), world_with_state w (mode_stored d nl 1))) /\
  NightlightProperty.set_mode PropertyWLED.nightlight (VInt 4) w =
  (Raise ValueError, w) /\
  (NightlightProperty.set_mode PropertyWLED.nightlight (VInt 2) w =
   (Return tt, world_with_state w (mode_stored d nl 2)) /\
   NightlightProperty.mode PropertyWLED.nightlight
     (world_with_state w (mode_stored d nl 2)) =
   (Return (VInt 2), world_with_state w (mode_stored d nl 2))) /\
  NightlightProperty.set_mode PropertyWLED.nightlight (VStr s) w =
  match int_of_str s with
  | Return n =>
      if (0 <=? n) && (n <=? 3)
      then (Return tt, world_with_state w (mode_stored d nl n))
      else (Raise ValueError, w)
  | Raise e => (Raise e, w)
  end.
Proof.
  split; [ split | split; [ | split; [ split | ] ] ].
  - rewrite (set_mode_mapped _ "fade" 1) by reflexivity.
    unfold store_mode; simpl.
    apply (nightlight_store_mode w d nl 1 Hstate Hnl).
  - apply (nightlight_store_mode w d nl 1 Hstate Hnl).
  - rewrite set_mode_unmapped by reflexivity. reflexivity.
  - rewrite set_mode_unmapped by reflexivity.
    unfold store_mode; simpl.
    apply (nightlight_store_mode w d nl 2 Hstate Hnl).
  - apply (nightlight_store_mode w d nl 2 Hstate Hnl).
  - rewrite set_mode_unmapped
      by (unfold NightlightProperty._MODE_MAP_getitem; now rewrite Hunknown).
    unfold store_mode; simpl. destruct (int_of_str s) as [n | e]; auto.
    destruct ((0 <=? n) && (n <=? 3)); auto.
    apply (nightlight_store_mode w d nl n Hstate Hnl).
Qed.

(** C4 on the session with an empty nightlight object, the unknown
    string being ["3"]. *)
Lemma nightlight_mode_setter_witness :
  NightlightProperty.set_mode PropertyWLED.nightlight (VStr "fade")
    two_segment_world =
  (Return tt,
   world_with_state two_segment_world
     (mode_stored
        [(KStr "seg",
          VList [VDict [(KStr "start", VInt 0)];
                 VDict [(KStr "start", VInt 7)]]);
         (KStr "nl", VDict [])] [] 1)) /\
  NightlightProperty.set_mode PropertyWLED.nightlight (VInt 4)
    two_segment_world = (Raise ValueError, two_segment_world).
Proof.
  destruct (nightlight_mode_setter two_segment_world
              [(KStr "seg",
                VList [VDict [(KStr "start", VInt 0)];
                       VDict [(KStr "start", VInt 7)]]);
               (KStr "nl", VDict [])] [] "3" eq_refl eq_refl eq_refl)
    as ((Hfade & _) & Hfour & _).
  split; [ exact Hfade | exact Hfour ].
Defined.

(** C10 (as amended): the keys of the mode map are exactly ["instant"],
    ["fade"], ["color fade"] (with a space) and ["sunrise"]; any other
    string goes through [int] and is stored when it is the numeral of an
    integer in 0..3, and raises ValueError otherwise.  ["colorFade"] is such
    a string, and raises rather than storing 2. *)
Theorem mode_names_and_fallthrough p s w
  (Hother :
     ~ (s = "instant" \/ s = "fade" \/ s = "color fade" \/ s = "sunrise")) :
  (forall t,
      (exists n,
          NightlightProperty._MODE_MAP_getitem (VStr t) = Return (VInt n))
      <-> t = "instant" \/ t = "fade" \/ t = "color fade" \/ t = "sunrise") /\
  NightlightProperty._MODE_MAP_getitem (VStr "color fade") = Return (VInt 2) /\
  NightlightProperty.set_mode p (VStr s) w = store_mode p (int_of_str s) w /\
  NightlightProperty.set_mode p (VStr "colorFade") w = (Raise ValueError, w).
Proof.
  split; [ intros t; split | split; [ reflexivity | split ] ].
  - intros [n Hn]. apply mode_map_keys.
    unfold NightlightProperty._MODE_MAP_getitem in Hn.
    destruct (NightlightProperty.assoc _ t); discriminate.
  - intros Ht. apply mode_map_keys in Ht.
    unfold NightlightProperty._MODE_MAP_getitem.
    destruct (NightlightProperty.assoc _ t) as [n | ]; [ | congruence ].
    exists n; reflexivity.
  - rewrite <- mode_map_keys in Hother.
    rewrite set_mode_unmapped; [ reflexivity | ].
    unfold NightlightProperty._MODE_MAP_getitem.
    destruct (NightlightProperty.assoc _ s); [ | reflexivity ].
    exfalso. apply Hother. discriminate.
  - rewrite set_mode_unmapped by reflexivity. reflexivity.
Qed.

Lemma two_is_no_mode_name :
  ~ ("2" = "instant" \/ "2" = "fade" \/ "2" = "color fade" \/ "2" = "sunrise").
Proof. intros [H | [H | [H | H]]]; discriminate. Qed.

(** The amended C10 at the string ["2"]. *)
Lemma mode_names_and_fallthrough_witness :
  NightlightProperty.set_mode PropertyWLED.nightlight (VStr "2")
    two_segment_world =
  store_mode PropertyWLED.nightlight (Return 2) two_segment_world.
Proof.
  destruct (mode_names_and_fallthrough PropertyWLED.nightlight "2"
              two_segment_world two_is_no_mode_name) as (_ & _ & Hset & _).
  exact Hset.
Defined.

(** C10 (as stated) fails: ["2"] is none of the four names, and the setter
    stores 2 for it. *)
Lemma numeral_string_is_stored :
  ~ ("2" = "instant" \/ "2" = "fade" \/ "2" = "color fade" \/ "2" = "sunrise")
  /\
  NightlightProperty.set_mode PropertyWLED.nightlight (VStr "2")
    two_segment_world =
  (Return tt,
   world_with_state two_segment_world
     (VDict
        [(KStr "seg",
          VList [VDict [(KStr "start", VInt 0)];
                 VDict [(KStr "start", VInt 7)]]);
         (KStr "nl", VDict [(KStr "mode", VInt 2)])])).
Proof. split; [ exact two_is_no_mode_name | reflexivity ]. Qed.

(** ** Text and back *)

(** *** String literals *)
Lemma append_assoc (a b c : string) :
  ((a ++ b) ++ c)%string = (a ++ (b ++ c))%string.
Proof. induction a as [ | x a IH]; simpl; [ reflexivity | now rewrite IH ]. Qed.

Lemma scanstring_escape_char c r :
  scanstring (escape_char c ++ r) = cons_char c (scanstring r).
Proof. destruct c as [[] [] [] [] [] [] [] []]; reflexivity. Qed.

Lemma scanstring_escape_str s rest :
  scanstring (escape_str s ++ String dquote rest) = Some (s, rest).
Proof.
  induction s as [ | c s IH]; simpl.
  - reflexivity.
  - rewrite append_assoc, scanstring_escape_char, IH. reflexivity.
Qed.

(** *** Integer literals *)

Lemma span_digits_uint u rest :
  digit_head rest = false ->
  span_digits (NilEmpty.string_of_uint u ++ rest) =
  (NilEmpty.string_of_uint u, rest).
Proof.
  intros Hrest.
  induction u; simpl; try (rewrite IHu; reflexivity).
  destruct rest as [ | c r]; [ reflexivity | ].
  simpl in Hrest. simpl. rewrite Hrest. reflexivity.
Qed.

Lemma closes_no_digit rest : closes rest = true -> digit_head rest = false.
Proof.
  destruct rest as [ | c r]; [ reflexivity | ].
  destruct c as [[] [] [] [] [] [] [] []]; simpl; intros H;
    try discriminate; reflexivity.
Qed.

Lemma closes_no_float rest : closes rest = true -> float_suffix rest = false.
Proof.
  destruct rest as [ | c r]; [ reflexivity | ].
  destruct c as [[] [] [] [] [] [] [] []]; simpl; intros H;
    try discriminate; reflexivity.
Qed.

(** The numeral of a positive number is in normal form. *)
Lemma to_uint_unorm p : unorm (Pos.to_uint p) = Pos.to_uint p.
Proof.
  rewrite <- (DecimalPos.Unsigned.to_of (Pos.to_uint p)).
  rewrite DecimalPos.Unsigned.of_to. reflexivity.
Qed.

Lemma to_uint_head p : forall u, Pos.to_uint p <> D0 u.
Proof.
  intros u Hu.
  pose proof (to_uint_unorm p) as Hn. rewrite Hu, unorm_D0 in Hn.
  destruct u;
    [ apply (DecimalPos.Unsigned.to_uint_nonzero p); exact Hu | .. ];
    match type of Hn with
    | unorm ?d = _ =>
        pose proof (nb_digits_unorm d) as H; rewrite Hn in H; simpl in H;
        assert (Hd : d <> Nil) by discriminate; specialize (H Hd); lia
    end.
Qed.

Lemma digits_value_to_uint p :
  digits_value (NilEmpty.string_of_uint (Pos.to_uint p)) = Some (Zpos p).
Proof.
  unfold digits_value.
  rewrite NilEmpty.usu. simpl.
  unfold Z.of_uint. rewrite DecimalPos.Unsigned.of_to. simpl.
  destruct (NilEmpty.string_of_uint (Pos.to_uint p)) eqn:E; [ | reflexivity ].
  exfalso. destruct (Pos.to_uint p) eqn:Eu; try discriminate.
  apply (DecimalPos.Unsigned.to_uint_nonnil p Eu).
Qed.

(** The numeral of a positive number, read back as the digits of a number. *)
Lemma scan_digits_to_uint p rest :
  closes rest = true ->
  exists c r,
    (NilEmpty.string_of_uint (Pos.to_uint p) ++ rest)%string = String c r /\
    is_digit c = true /\ (nat_of_ascii c =? 48)%nat = false /\
    span_digits (String c r) = (NilEmpty.string_of_uint (Pos.to_uint p), rest).
Proof.
  intros Hrest.
  pose proof (span_digits_uint (Pos.to_uint p) rest (closes_no_digit _ Hrest))
    as Hspan.
  pose proof (to_uint_head p) as Hhead.
  pose proof (DecimalPos.Unsigned.to_uint_nonnil p) as Hnil.
  destruct (Pos.to_uint p) as [ | u | u | u | u | u | u | u | u | u | u];
    [ congruence | exfalso; apply (Hhead u); reflexivity | .. ];
    simpl; do 2 eexists; (split; [ reflexivity | ]); repeat split;
    exact Hspan.
Qed.

Lemma scan_number_str_of_int z rest :
  closes rest = true ->
  scan_number (str_of_int z ++ rest) = Some (z, rest).
Proof.
  intros Hrest. pose proof (closes_no_float _ Hrest) as Hfloat.
  destruct z as [ | p | p]; simpl.
  - unfold scan_number, scan_unsigned; simpl. rewrite Hfloat. reflexivity.
  - destruct (scan_digits_to_uint p rest Hrest) as (c & r & E & Hd & Hz & Hs).
    rewrite E. unfold scan_number, scan_unsigned.
    destruct c as [[] [] [] [] [] [] [] []]; try discriminate;
      rewrite Hs, Hfloat, digits_value_to_uint; reflexivity.
  - destruct (scan_digits_to_uint p rest Hrest) as (c & r & E & Hd & Hz & Hs).
    rewrite E. unfold scan_number, scan_unsigned.
    destruct c as [[] [] [] [] [] [] [] []]; try discriminate;
      rewrite Hs, Hfloat, digits_value_to_uint; reflexivity.
Qed.

Lemma str_of_int_starts z rest :
  starts_number (str_of_int z ++ rest) = true.
Proof.
  destruct z as [ | p | p]; simpl; try reflexivity.
  pose proof (DecimalPos.Unsigned.to_uint_nonnil p) as Hnil.
  destruct (Pos.to_uint p); try congruence; reflexivity.
Qed.

Lemma parse_value_number fuel s :
  starts_number s = true ->
  parse_value (S fuel) s =
  match scan_number s with
  | Some (z, r) => Some (VInt z, r)
  | None => None
  end.
Proof.
  destruct s as [ | c r]; [ discriminate | ].
  destruct c as [[] [] [] [] [] [] [] []]; simpl; try discriminate;
    intros _; reflexivity.
Qed.

(** *** Members of a mapping *)
Lemma dict_set_fresh acc k v later :
  distinct (map fst acc ++ k :: later) = true ->
  dict_set acc k v = (acc ++ [(k, v)])%list.
Proof.
  induction acc as [ | [a x] acc IH]; simpl; intros H; [ reflexivity | ].
  apply andb_true_iff in H. destruct H as [Hfresh Hrest].
  apply negb_true_iff in Hfresh. rewrite existsb_app in Hfresh.
  apply orb_false_iff in Hfresh. destruct Hfresh as [_ Hfresh].
  simpl in Hfresh. apply orb_false_iff in Hfresh. destruct Hfresh as [Hk _].
  rewrite Hk, IH by assumption. reflexivity.
Qed.

Lemma dict_of_pairs_from d : forall acc,
  forallb is_str_key (map fst d) = true ->
  distinct (map fst acc ++ map fst d) = true ->
  fold_left (fun m kv => dict_set m (KStr (fst kv)) (snd kv)) (pairs_of d) acc
  = (acc ++ d)%list.
Proof.
  induction d as [ | [k v] d IH]; intros acc Hstr Hdist; simpl.
  - now rewrite List.app_nil_r.
  - simpl in Hstr. apply andb_true_iff in Hstr. destruct Hstr as [Hk Hstr].
    destruct k as [s | z]; [ | discriminate ]. simpl in *.
    rewrite (dict_set_fresh acc (KStr s) v (map fst d) Hdist).
    rewrite IH; [ now rewrite <- List.app_assoc | assumption | ].
    rewrite List.map_app, <- List.app_assoc. exact Hdist.
Qed.

Lemma dict_of_pairs_of d :
  forallb is_str_key (map fst d) = true ->
  distinct (map fst d) = true ->
  dict_of_pairs (pairs_of d) = d.
Proof.
  intros Hstr Hdist. unfold dict_of_pairs.
  now rewrite (dict_of_pairs_from d [] Hstr Hdist).
Qed.

(** *** Values *)
Lemma starts_number_value s : starts_number s = true -> starts_value s = true.
Proof.
  destruct s as [ | c r]; [ discriminate | ].
  destruct c as [[] [] [] [] [] [] [] []]; simpl; intros H;
    try discriminate; reflexivity.
Qed.

Lemma dumps_starts v rest : starts_value (dumps v ++ rest) = true.
Proof.
  destruct v as [ | [] | z | s | l | d]; try reflexivity.
  apply starts_number_value, str_of_int_starts.
Qed.

Lemma starts_value_skip_ws s : starts_value s = true -> skip_ws s = s.
Proof.
  destruct s as [ | c r]; [ discriminate | ].
  destruct c as [[] [] [] [] [] [] [] []]; simpl; intros H;
    try discriminate; reflexivity.
Qed.

Lemma parse_value_array fuel r :
  starts_value r = true ->
  parse_value (S fuel) (String "[" r) =
  match parse_elems fuel r with
  | Some (l, r') => Some (VList l, r')
  | None => None
  end.
Proof.
  destruct r as [ | c r]; [ discriminate | ].
  destruct c as [[] [] [] [] [] [] [] []]; simpl; intros H;
    try discriminate; reflexivity.
Qed.

Lemma join_dumps_starts v l rest :
  starts_value (join_items (map dumps (v :: l)) ++ rest) = true.
Proof.
  destruct l as [ | v' l].
  - change (starts_value (dumps v ++ rest) = true). apply dumps_starts.
  - change (starts_value
              ((dumps v ++ ", " ++ join_items (map dumps (v' :: l))) ++ rest)
            = true).
    rewrite append_assoc. apply dumps_starts.
Qed.

Lemma parse_elems_dumps v l :
  Forall reads_back (v :: l) ->
  forall fuel rest,
    (elems_need (v :: l) <= fuel)%nat ->
    parse_elems fuel (join_items (map dumps (v :: l)) ++ String "]" rest) =
    Some (v :: l, rest).
Proof.
  revert v. induction l as [ | v' l IH]; intros v Hall fuel rest Hfuel;
    inversion Hall as [ | ? ? Hv Hl]; subst;
    (destruct fuel as [ | fuel]; [ simpl in Hfuel; lia | ]).
  - simpl in Hfuel. simpl join_items. cbn [parse_elems]. unfold JSONArray.
    rewrite Hv by (lia || reflexivity). reflexivity.
  - change (elems_need (v :: v' :: l))
      with (S (need v + elems_need (v' :: l))) in Hfuel.
    pose proof (join_dumps_starts v' l (String "]" rest)) as Hs.
    specialize (IH v' Hl fuel rest).
    change (join_items (map dumps (v :: v' :: l)))
      with (dumps v ++ ", " ++ join_items (map dumps (v' :: l))).
    rewrite !append_assoc.
    remember (join_items (map dumps (v' :: l)) ++ String "]" rest) as tail.
    cbn [parse_elems]. unfold JSONArray.
    rewrite Hv by (lia || reflexivity).
    simpl. rewrite (starts_value_skip_ws _ Hs), IH by lia. reflexivity.
Qed.

Lemma skip_ws_space s : skip_ws (String " " s) = skip_ws s.
Proof. reflexivity. Qed.

Lemma member_text_tail kv tail :
  (member_text kv ++ tail)%string =
  String dquote
    (escape_str (key_str (fst kv)) ++
     String dquote (String ":" (String " " (dumps (snd kv) ++ tail)))).
Proof.
  unfold member_text, encode_str. simpl. rewrite !append_assoc. reflexivity.
Qed.

Lemma parse_members_dumps kv d :
  Forall (fun x => reads_back (snd x)) (kv :: d) ->
  forall fuel rest,
    (members_need (kv :: d) <= fuel)%nat ->
    exists body,
      (join_items (map member_text (kv :: d)) ++ String "}" rest)%string =
      String dquote body /\
      parse_members fuel body = Some (pairs_of (kv :: d), rest).
Proof.
  revert kv. induction d as [ | kv' d IH]; intros kv Hall fuel rest Hfuel;
    inversion Hall as [ | ? ? Hv Hd]; subst;
    (destruct fuel as [ | fuel]; [ simpl in Hfuel; lia | ]).
  - simpl in Hfuel. simpl join_items. rewrite member_text_tail.
    eexists. split; [ reflexivity | ].
    cbn [parse_members]. unfold JSONObject. rewrite scanstring_escape_str.
    simpl skip_ws.
    cbv iota beta. rewrite skip_ws_space.
    rewrite (starts_value_skip_ws _ (dumps_starts _ _)).
    rewrite Hv by (lia || reflexivity). reflexivity.
  - change (members_need (kv :: kv' :: d))
      with (S (need (snd kv) + members_need (kv' :: d))) in Hfuel.
    destruct (IH kv' Hd fuel rest) as (body & Hbody & Hparse); [ lia | ].
    change (join_items (map member_text (kv :: kv' :: d)))
      with (member_text kv ++ ", " ++
            join_items (map member_text (kv' :: d))).
    rewrite !append_assoc. rewrite Hbody. rewrite member_text_tail.
    eexists. split; [ reflexivity | ].
    cbn [parse_members]. unfold JSONObject. rewrite scanstring_escape_str.
    simpl skip_ws.
    cbv iota beta. rewrite skip_ws_space.
    rewrite (starts_value_skip_ws _ (dumps_starts _ _)).
    rewrite Hv by (lia || reflexivity).
    simpl. rewrite Hparse. reflexivity.
Qed.

Lemma Forall_reads_back {A} (f : A -> value) (l : list A) :
  Forall
    (fun x => dict_wf (f x) = true -> str_keyed (f x) = true ->
              reads_back (f x)) l ->
  forallb (fun x => dict_wf (f x)) l = true ->
  forallb (fun x => str_keyed (f x)) l = true ->
  Forall (fun x => reads_back (f x)) l.
Proof.
  induction 1 as [ | x l Hx _ IH]; simpl; intros Hwf Hkeys; constructor;
    apply andb_true_iff in Hwf; apply andb_true_iff in Hkeys;
    destruct Hwf, Hkeys; auto.
Qed.

Lemma str_keyed_dict d :
  str_keyed (VDict d) = true ->
  forallb is_str_key (map fst d) = true /\
  forallb (fun kv => str_keyed (snd kv)) d = true.
Proof.
  simpl. induction d as [ | kv d IH]; simpl; [ auto | ].
  intros H. apply andb_true_iff in H. destruct H as [H1 H2].
  apply andb_true_iff in H1. destruct H1 as [Hk Hv].
  destruct (IH H2) as [IH1 IH2]. rewrite Hk, Hv, IH1, IH2. auto.
Qed.

(** Every document with distinct string keys is read back from its
    text. *)
Lemma parse_value_dumps v :
  dict_wf v = true -> str_keyed v = true -> reads_back v.
Proof.
  induction v as [ | b | z | s | l IH | d IH] using value_nested_ind;
    intros Hwf Hkeys fuel rest Hfuel Hrest;
    (destruct fuel as [ | fuel]; [ simpl in Hfuel; lia | ]).
  - reflexivity.
  - destruct b; reflexivity.
  - rewrite parse_value_number by apply str_of_int_starts.
    simpl dumps. now rewrite scan_number_str_of_int.
  - simpl dumps. unfold encode_str. simpl. rewrite append_assoc. simpl.
    now rewrite scanstring_escape_str.
  - destruct l as [ | v l]; [ reflexivity | ].
    change (dumps (VList (v :: l)))
      with ("[" ++ join_items (map dumps (v :: l)) ++ "]").
    cbn [append]. rewrite append_assoc.
    rewrite parse_value_array by apply join_dumps_starts.
    change (forallb dict_wf (v :: l) = true) in Hwf.
    change (forallb str_keyed (v :: l) = true) in Hkeys.
    pose proof (Forall_reads_back (fun x => x) _ IH Hwf Hkeys) as Hall.
    change ("]" ++ rest)%string with (String "]" rest).
    rewrite (parse_elems_dumps v l Hall fuel rest); [ reflexivity | ].
    simpl in Hfuel. unfold elems_need. simpl. lia.
  - destruct d as [ | kv d]; [ reflexivity | ].
    change (dumps (VDict (kv :: d)))
      with ("{" ++ join_items (map member_text (kv :: d)) ++ "}").
    cbn [append]. rewrite append_assoc.
    destruct (str_keyed_dict _ Hkeys) as [Hstr Hsub].
    change (distinct (map fst (kv :: d)) &&
            forallb (fun x => dict_wf (snd x)) (kv :: d) = true) in Hwf.
    apply andb_true_iff in Hwf. destruct Hwf as [Hdist Hwf].
    pose proof (Forall_reads_back snd _ IH Hwf Hsub) as Hall.
    change ("}" ++ rest)%string with (String "}" rest).
    destruct (parse_members_dumps kv d Hall fuel rest) as (body & Hbody & Hp).
    { simpl in Hfuel. unfold members_need. simpl. lia. }
    rewrite Hbody. simpl. rewrite Hp.
    rewrite dict_of_pairs_of; [ reflexivity | assumption | assumption ].
Qed.

Lemma length_append (a b : string) :
  String.length (a ++ b) = (String.length a + String.length b)%nat.
Proof. induction a as [ | c a IH]; simpl; [ reflexivity | now rewrite IH ]. Qed.

Lemma append_empty (s : string) : (s ++ EmptyString)%string = s.
Proof. induction s as [ | c s IH]; simpl; [ reflexivity | now rewrite IH ]. Qed.

Lemma elems_need_le_length l :
  Forall (fun v => (need v <= S (2 * String.length (dumps v)))%nat) l ->
  (elems_need l <= 2 * String.length (join_items (map dumps l)) + 2)%nat.
Proof.
  induction 1 as [ | v l Hv Hl IH]; [ simpl; lia | ].
  destruct l as [ | v' l].
  - change (S (need v + 0) <= 2 * String.length (dumps v) + 2)%nat. lia.
  - change (elems_need (v :: v' :: l))
      with (S (need v + elems_need (v' :: l))).
    change (join_items (map dumps (v :: v' :: l)))
      with (dumps v ++ ", " ++ join_items (map dumps (v' :: l))).
    rewrite !length_append. change (String.length ", ") with 2%nat. lia.
Qed.

Lemma members_need_le_length d :
  Forall (fun kv =>
            (need (snd kv) <= S (2 * String.length (dumps (snd kv))))%nat) d ->
  (members_need d <=
   2 * String.length (join_items (map member_text d)) + 2)%nat.
Proof.
  induction 1 as [ | kv d Hkv Hd IH]; [ simpl; lia | ].
  assert (Hm : (String.length (dumps (snd kv)) <=
                String.length (member_text kv))%nat).
  { unfold member_text. rewrite !length_append. lia. }
  destruct d as [ | kv' d].
  - change
      (S (need (snd kv) + 0) <= 2 * String.length (member_text kv) + 2)%nat.
    lia.
  - change (members_need (kv :: kv' :: d))
      with (S (need (snd kv) + members_need (kv' :: d))).
    change (join_items (map member_text (kv :: kv' :: d)))
      with (member_text kv ++ ", " ++ join_items (map member_text (kv' :: d))).
    rewrite !length_append. change (String.length ", ") with 2%nat. lia.
Qed.

(** The fuel [loads] gives the scanner is enough for the text of a
    document. *)
Lemma need_le_length v : (need v <= S (2 * String.length (dumps v)))%nat.
Proof.
  induction v as [ | b | z | s | l IH | d IH] using value_nested_ind;
    try (simpl; lia).
  - pose proof (elems_need_le_length l IH) as H.
    change (need (VList l)) with (S (elems_need l)).
    change (dumps (VList l)) with ("[" ++ join_items (map dumps l) ++ "]").
    rewrite !length_append. change (String.length "[") with 1%nat.
    change (String.length "]") with 1%nat. lia.
  - pose proof (members_need_le_length d IH) as H.
    change (need (VDict d)) with (S (members_need d)).
    change (dumps (VDict d))
      with ("{" ++ join_items (map member_text d) ++ "}").
    rewrite !length_append. change (String.length "{") with 1%nat.
    change (String.length "}") with 1%nat. lia.
Qed.

(** [loads] undoes [dumps] on every document whose mappings have distinct
    string keys. *)
Lemma loads_dumps v :
  dict_wf v = true -> str_keyed v = true -> loads (dumps v) = Return v.
Proof.
  intros Hwf Hkeys. unfold loads.
  pose proof (dumps_starts v EmptyString) as Hs. rewrite append_empty in Hs.
  rewrite (starts_value_skip_ws _ Hs).
  pose proof (parse_value_dumps v Hwf Hkeys
                (S (2 * String.length (dumps v))) EmptyString (need_le_length v)
                eq_refl) as Hp.
  rewrite append_empty in Hp. rewrite Hp. reflexivity.
Qed.

(** *** What the scanner consumes *)

Ltac bits c := destruct c as [[] [] [] [] [] [] [] []].

Lemma skip_ws_length s : (String.length (skip_ws s) <= String.length s)%nat.
Proof.
  induction s as [ | c s IH]; simpl; [ lia | ].
  destruct (is_ws c); simpl; lia.
Qed.

Lemma cons_char_length c o x r n :
  cons_char c o = Some (x, r) ->
  (forall y, o = Some (y, r) -> (String.length r < n)%nat) ->
  (String.length r < n)%nat.
Proof.
  destruct o as [[y r'] | ]; simpl; [ | discriminate ].
  intros H; inversion H; subst. intros Hr. eapply Hr. reflexivity.
Qed.

Lemma scanstring_length n : forall s x r,
  (String.length s <= n)%nat ->
  scanstring s = Some (x, r) -> (String.length r < String.length s)%nat.
Proof.
  induction n as [ | n IH]; intros s x r Hn;
    (destruct s as [ | c s]; [ discriminate | ]); simpl in Hn; [ lia | ].
  cbn [scanstring].
  destruct (nat_of_ascii c =? 34)%nat.
  { intros H; inversion H; subst. simpl. lia. }
  destruct (nat_of_ascii c =? 92)%nat.
  - destruct s as [ | e s]; [ discriminate | ].
    assert (Hone : forall o,
      (match unescape e with
       | Some y => cons_char y o
       | None => None
       end) = Some (x, r) ->
      (forall y, o = Some (y, r) ->
                 (String.length r < S (String.length s))%nat) ->
      (String.length r < S (S (String.length s)))%nat).
    { intros o H Ho. destruct (unescape e); [ | discriminate ].
      pose proof (cons_char_length _ _ _ _ _ H Ho). lia. }
    assert (Hrec : forall y, scanstring s = Some (y, r) ->
                             (String.length r < S (String.length s))%nat).
    { intros y Hy. apply IH in Hy; [ lia | simpl in Hn; lia ]. }
    bits e; try (intros H; simpl; apply (Hone _ H Hrec)).
    (* the escape is [\u] *)
    destruct s as [ | h1 [ | h2 [ | h3 [ | h4 s]]]];
      try (simpl; discriminate).
    destruct (hex4 h1 h2 h3 h4); [ | discriminate ].
    intros H. simpl.
    assert (String.length r < S (String.length s))%nat; [ | lia ].
    eapply cons_char_length; [ exact H | ].
    intros y Hy. apply IH in Hy; simpl in *; lia.
  - destruct (nat_of_ascii c <? 32)%nat; [ discriminate | ].
    intros H. simpl.
    assert (String.length r < S (String.length s))%nat; [ | lia ].
    eapply cons_char_length; [ exact H | ].
    intros y Hy. apply IH in Hy; simpl in *; lia.
Qed.

Lemma span_digits_length s ds r :
  span_digits s = (ds, r) -> (String.length r <= String.length s)%nat.
Proof.
  revert ds r. induction s as [ | c s IH]; simpl; intros ds r.
  - intros H; inversion H; subst. simpl. lia.
  - destruct (is_digit c).
    + destruct (span_digits s) as [ds' r'] eqn:E.
      intros H; inversion H; subst. specialize (IH _ _ eq_refl). lia.
    + intros H; inversion H; subst. simpl. lia.
Qed.

Lemma span_digits_head c s ds r :
  is_digit c = true -> span_digits (String c s) = (ds, r) ->
  (String.length r <= String.length s)%nat.
Proof.
  simpl. intros ->. destruct (span_digits s) as [ds' r'] eqn:E.
  intros H; inversion H; subst. eapply span_digits_length; eassumption.
Qed.

Lemma scan_unsigned_length neg body z r :
  scan_unsigned neg body = Some (z, r) ->
  (String.length r < String.length body)%nat.
Proof.
  destruct body as [ | c body]; [ discriminate | ].
  assert (Hgen :
    (if is_digit c then
       let (ds, r0) := span_digits (String c body) in
       if float_suffix r0 then None
       else option_map (fun n : Z => (if neg then - n else n, r0))
              (digits_value ds)
     else None) = Some (z, r) ->
    (String.length r < String.length (String c body))%nat).
  { destruct (is_digit c) eqn:Ed; [ | discriminate ].
    destruct (span_digits (String c body)) as [ds r0] eqn:Es.
    pose proof (span_digits_head _ _ _ _ Ed Es) as Hlen.
    destruct (float_suffix r0); [ discriminate | ].
    destruct (digits_value ds); simpl; [ | discriminate ].
    intros H; inversion H; subst. simpl. lia. }
  unfold scan_unsigned. bits c; try exact Hgen.
  destruct (float_suffix body); [ discriminate | ].
  intros H; inversion H; subst. simpl. lia.
Qed.

Lemma scan_number_length s z r :
  scan_number s = Some (z, r) -> (String.length r < String.length s)%nat.
Proof.
  unfold scan_number. destruct s as [ | c s]; [ discriminate | ].
  bits c; try apply scan_unsigned_length.
  intros H. apply scan_unsigned_length in H. simpl. lia.
Qed.

(** Reading a word such as [null] letter by letter. *)
Ltac spell :=
  repeat match goal with
    | |- match ?x with _ => _ end = _ -> _ =>
        is_var x; destruct x as [ | [[] [] [] [] [] [] [] []] ?];
        try discriminate
    end.

Lemma scan_once_inv elems members s v r :
  scan_once elems members s = Some (v, r) ->
  (atom v /\ (String.length r < String.length s)%nat) \/
  (exists s' l,
      (String.length s' < String.length s)%nat /\
      elems s' = Some (l, r) /\ v = VList l) \/
  (exists s' p,
      (String.length s' + 2 <= String.length s)%nat /\
      members s' = Some (p, r) /\ v = VDict (dict_of_pairs p)).
Proof.
  destruct s as [ | c s]; [ discriminate | ].
  unfold scan_once.
  destruct (nat_of_ascii c =? 34)%nat.
  { destruct (scanstring s) as [[x r'] | ] eqn:E; intros H; inversion H; subst.
    left. split; [ exact I | ].
    apply (scanstring_length _ _ _ _ (le_n _)) in E. simpl. lia. }
  assert (Hnum :
    match scan_number (String c s) with
    | Some (z, r') => Some (VInt z, r')
    | None => None
    end = Some (v, r) ->
    atom v /\ (String.length r < String.length (String c s))%nat).
  { destruct (scan_number (String c s)) as [[z r'] | ] eqn:E;
      intros H; inversion H; subst.
    split; [ exact I | ]. eapply scan_number_length; eassumption. }
  assert (Harray : forall t,
    match elems t with
    | Some (l, r'') => Some (VList l, r'')
    | None => None
    end = Some (v, r) ->
    (String.length t <= String.length s)%nat ->
    exists s' l,
      (String.length s' < String.length (String c s))%nat /\
      elems s' = Some (l, r) /\ v = VList l).
  { intros t H Ht. destruct (elems t) as [[l r''] | ] eqn:El;
      inversion H; subst.
    exists t, l. simpl. repeat split; [ lia | assumption ]. }
  assert (Hobject : forall t,
    match members t with
    | Some (p, r'') => Some (VDict (dict_of_pairs p), r'')
    | None => None
    end = Some (v, r) ->
    (String.length t < String.length s)%nat ->
    exists s' p,
      (String.length s' + 2 <= String.length (String c s))%nat /\
      members s' = Some (p, r) /\ v = VDict (dict_of_pairs p)).
  { intros t H Ht. destruct (members t) as [[p r''] | ] eqn:Em;
      inversion H; subst.
    exists t, p. simpl. repeat split; [ lia | assumption ]. }
  pose proof (skip_ws_length s) as Hws.
  bits c; try (intros H; left; exact (Hnum H)); clear Hnum.
  - (* an object *)
    destruct (skip_ws s) as [ | q t]; [ discriminate | ]. simpl in Hws.
    bits q; try discriminate; intros H;
      first [ right; right; apply (Hobject t H); lia
            | inversion H; subst; left; split; [ exact I | simpl; lia ] ].
  - (* an array *)
    destruct (skip_ws s) as [ | q t].
    + intros H. right; left. apply (Harray _ H). simpl. lia.
    + bits q; try (intros H; right; left; apply (Harray _ H); exact Hws).
      intros H; inversion H; subst. left.
      split; [ exact I | simpl in *; lia ].
  - (* true *)
    spell. intros H; inversion H; subst. left.
    split; [ exact I | simpl; lia ].
  - (* null *)
    spell. intros H; inversion H; subst. left.
    split; [ exact I | simpl; lia ].
  - (* false *)
    spell. intros H; inversion H; subst. left.
    split; [ exact I | simpl; lia ].
Qed.

Lemma JSONArray_inv scan elems s l r :
  JSONArray scan elems s = Some (l, r) ->
  exists v r1,
    scan s = Some (v, r1) /\
    ((l = [v] /\ (String.length r < String.length r1)%nat) \/
     (exists t l',
         (String.length t < String.length r1)%nat /\
         elems t = Some (l', r) /\ l = v :: l')).
Proof.
  unfold JSONArray. destruct (scan s) as [[v r1] | ]; [ | discriminate ].
  intros H. exists v, r1. split; [ reflexivity | ]. revert H.
  pose proof (skip_ws_length r1) as Hws.
  destruct (skip_ws r1) as [ | q t]; [ discriminate | ]. simpl in Hws.
  pose proof (skip_ws_length t) as Hws'.
  bits q; try discriminate; intros H;
    first [ inversion H; subst; left; split; [ reflexivity | lia ]
          | right;
            destruct (elems (skip_ws t)) as [[l' r'] | ] eqn:E;
            inversion H; subst;
            exists (skip_ws t), l'; repeat split; [ lia | assumption ] ].
Qed.

Lemma JSONObject_inv scan members s p r :
  JSONObject scan members s = Some (p, r) ->
  exists k r0 t v r2,
    scanstring s = Some (k, r0) /\
    (String.length t < String.length r0)%nat /\
    scan t = Some (v, r2) /\
    ((p = [(k, v)] /\ (String.length r < String.length r2)%nat) \/
     (exists t' p',
         (String.length t' + 2 <= String.length r2)%nat /\
         members t' = Some (p', r) /\ p = (k, v) :: p')).
Proof.
  unfold JSONObject. destruct (scanstring s) as [[k r0] | ]; [ | discriminate ].
  pose proof (skip_ws_length r0) as Hws0.
  destruct (skip_ws r0) as [ | q0 t0]; [ discriminate | ]. simpl in Hws0.
  bits q0; try discriminate.
  pose proof (skip_ws_length t0) as Hws1.
  destruct (scan (skip_ws t0)) as [[v r2] | ] eqn:Ev; [ | discriminate ].
  intros H. exists k, r0, (skip_ws t0), v, r2.
  split; [ reflexivity | ]. split; [ lia | ]. split; [ assumption | ].
  revert H.
  pose proof (skip_ws_length r2) as Hws2.
  destruct (skip_ws r2) as [ | q2 t2]; [ discriminate | ]. simpl in Hws2.
  bits q2; try discriminate; intros H;
    first [ inversion H; subst; left; split; [ reflexivity | lia ] | right ].
  revert H. pose proof (skip_ws_length t2) as Hws3.
  destruct (skip_ws t2) as [ | q3 t3]; [ discriminate | ]. simpl in Hws3.
  destruct (nat_of_ascii q3 =? 34)%nat; [ | discriminate ].
  destruct (members t3) as [[p' r'] | ] eqn:Em; intros H; inversion H; subst.
  exists t3, p'. repeat split; [ lia | assumption ].
Qed.

(** Each scanner leaves less text than it was given. *)
Lemma parse_consumes fuel :
  (forall s v r, parse_value fuel s = Some (v, r) ->
                 (String.length r < String.length s)%nat) /\
  (forall s l r, parse_elems fuel s = Some (l, r) ->
                 (String.length r < String.length s)%nat) /\
  (forall s p r, parse_members fuel s = Some (p, r) ->
                 (String.length r < String.length s)%nat).
Proof.
  induction fuel as [ | fuel (IHv & IHe & IHm)];
    [ repeat split; intros; discriminate | ].
  split; [ | split ]; intros s x r H; cbn in H.
  - apply scan_once_inv in H.
    destruct H as [[_ H] | [(t & l & Ht & H & _) | (t & p & Ht & H & _)]].
    + exact H.
    + apply IHe in H. lia.
    + apply IHm in H. lia.
  - apply JSONArray_inv in H.
    destruct H as (v & r1 & Hv & [[_ H] | (t & l' & Ht & H & _)]);
      apply IHv in Hv; [ lia | ].
    apply IHe in H. lia.
  - apply JSONObject_inv in H.
    destruct H as (k & r0 & t & v & r2 & Hk & Ht & Hv
                   & [[_ H] | (t' & p' & Ht' & H & _)]);
      apply (scanstring_length _ _ _ _ (le_n _)) in Hk; apply IHv in Hv;
      [ lia | ].
    apply IHm in H. lia.
Qed.

(** *** Documents read from text *)

Lemma key_eqb_eq a b : key_eqb a b = true -> a = b.
Proof.
  destruct a, b; simpl; try discriminate; intros H;
    [ apply String.eqb_eq in H | apply Z.eqb_eq in H ]; now subst.
Qed.

Lemma existsb_dict_set k d k' x :
  existsb (key_eqb k) (map fst (dict_set d k' x)) =
  existsb (key_eqb k) (map fst d) || key_eqb k k'.
Proof.
  induction d as [ | [a y] d IH]; simpl.
  - now rewrite orb_false_r.
  - destruct (key_eqb a k') eqn:E; simpl.
    + apply key_eqb_eq in E. subst a.
      destruct (key_eqb k k'); simpl; [ reflexivity | now rewrite orb_false_r ].
    + rewrite IH. now rewrite orb_assoc.
Qed.

Lemma distinct_dict_set d k x :
  distinct (map fst d) = true -> distinct (map fst (dict_set d k x)) = true.
Proof.
  induction d as [ | [a y] d IH]; simpl; [ reflexivity | ].
  intros H. apply andb_true_iff in H. destruct H as [Hfresh Hrest].
  destruct (key_eqb a k) eqn:E; simpl.
  - now rewrite Hfresh, Hrest.
  - rewrite existsb_dict_set, E, orb_false_r, Hfresh. simpl. auto.
Qed.

Lemma plain_dict d :
  plain (VDict d) <->
  distinct (map fst d) = true /\
  Forall (fun kv => is_str_key (fst kv) = true /\ plain (snd kv)) d.
Proof.
  unfold plain.
  change (dict_wf (VDict d))
    with (distinct (map fst d) && forallb (fun kv => dict_wf (snd kv)) d).
  change (str_keyed (VDict d))
    with (forallb (fun kv => is_str_key (fst kv) && str_keyed (snd kv)) d).
  rewrite andb_true_iff, !forallb_forall, Forall_forall.
  split.
  - intros [[Hd Hw] Hk]. split; [ assumption | ]. intros kv Hin.
    specialize (Hw kv Hin). specialize (Hk kv Hin).
    apply andb_true_iff in Hk. tauto.
  - intros [Hd Hall]. repeat split; [ assumption | | ]; intros kv Hin;
      destruct (Hall kv Hin) as (Hk & Hw & Hs); [ assumption | ].
    now rewrite Hk, Hs.
Qed.

Lemma plain_list l : plain (VList l) <-> Forall plain l.
Proof.
  unfold plain.
  change (dict_wf (VList l)) with (forallb dict_wf l).
  change (str_keyed (VList l)) with (forallb str_keyed l).
  rewrite !forallb_forall, Forall_forall. firstorder.
Qed.

Lemma Forall_dict_set (P : key * value -> Prop) d k x :
  Forall P d -> P (k, x) -> (forall a y, P (a, y) -> P (a, x)) ->
  Forall P (dict_set d k x).
Proof.
  intros Hd Hx Hrepl. induction Hd as [ | [a y] d Hy Hd IH]; simpl.
  - constructor; [ assumption | constructor ].
  - destruct (key_eqb a k); constructor; eauto.
Qed.

Lemma plain_dict_of_pairs pairs :
  Forall (fun kv => plain (snd kv)) pairs ->
  plain (VDict (dict_of_pairs pairs)).
Proof.
  unfold dict_of_pairs.
  assert (Hgen : forall acc,
    plain (VDict acc) -> Forall (fun kv => plain (snd kv)) pairs ->
    plain (VDict (fold_left
                    (fun d kv => dict_set d (KStr (fst kv)) (snd kv))
                    pairs acc))).
  { induction pairs as [ | [k x] pairs IH]; intros acc Hacc Hall; simpl.
    - assumption.
    - inversion Hall as [ | ? ? Hx Hrest]; subst. simpl in Hx.
      apply IH; [ | assumption ].
      apply plain_dict in Hacc. destruct Hacc as [Hd Hacc].
      apply plain_dict. split; [ now apply distinct_dict_set | ].
      apply Forall_dict_set; simpl; [ assumption | now split | ].
      intros a y [Ha _]. now split. }
  apply Hgen. split; reflexivity.
Qed.

(** Whatever the scanner reads is a document with distinct string keys. *)
Lemma parse_plain fuel :
  (forall s v r, parse_value fuel s = Some (v, r) -> plain v) /\
  (forall s l r, parse_elems fuel s = Some (l, r) -> Forall plain l) /\
  (forall s p r, parse_members fuel s = Some (p, r) ->
                 Forall (fun kv => plain (snd kv)) p).
Proof.
  induction fuel as [ | fuel (IHv & IHe & IHm)];
    [ repeat split; intros; discriminate | ].
  split; [ | split ]; intros s x r H; cbn in H.
  - apply scan_once_inv in H.
    destruct H as [[H _] | [(t & l & _ & H & ->) | (t & p & _ & H & ->)]].
    + destruct x as [ | b | z | y | [ | ] | [ | ]]; try contradiction;
        split; reflexivity.
    + apply plain_list. eapply IHe; eassumption.
    + apply plain_dict_of_pairs. eapply IHm; eassumption.
  - apply JSONArray_inv in H.
    destruct H as (v & r1 & Hv & [[-> _] | (t & l' & _ & H & ->)]);
      apply IHv in Hv; constructor; eauto.
  - apply JSONObject_inv in H.
    destruct H as (k & r0 & t & v & r2 & _ & _ & Hv
                   & [[-> _] | (t' & p' & _ & H & ->)]);
      apply IHv in Hv; constructor; eauto.
Qed.

(** The documents [loads] returns have distinct string keys in all their
    mappings. *)
Lemma loads_plain s v :
  loads s = Return v -> dict_wf v = true /\ str_keyed v = true.
Proof.
  unfold loads.
  destruct (parse_value _ _) as [[x r] | ] eqn:E; [ | discriminate ].
  destruct (skip_ws r); [ | discriminate ].
  intros H; inversion H; subst.
  eapply (proj1 (parse_plain _)); eassumption.
Qed.

(** *** Fuel *)

(** [scan_once] depends on its callbacks only through what they do on
    shorter texts. *)
Lemma scan_once_ext e1 m1 e2 m2 s :
  (forall t, (String.length t < String.length s)%nat -> e1 t = e2 t) ->
  (forall t, (String.length t + 2 <= String.length s)%nat -> m1 t = m2 t) ->
  scan_once e1 m1 s = scan_once e2 m2 s.
Proof.
  destruct s as [ | c s]; [ reflexivity | ]. intros He Hm.
  unfold scan_once.
  destruct (nat_of_ascii c =? 34)%nat; [ reflexivity | ].
  pose proof (skip_ws_length s) as Hws.
  bits c; try reflexivity.
  - destruct (skip_ws s) as [ | q t]; [ reflexivity | ]. simpl in Hws, Hm.
    rewrite (Hm t) by lia. reflexivity.
  - destruct (skip_ws s) as [ | q t].
    + rewrite (He EmptyString) by (simpl; lia). reflexivity.
    + simpl in Hws.
      bits q; try reflexivity;
        match goal with
        | |- context [e1 ?x] => rewrite (He x) by (simpl; lia)
        end; reflexivity.
Qed.

Lemma JSONArray_ext scan1 e1 scan2 e2 s :
  scan1 s = scan2 s ->
  (forall v r, scan1 s = Some (v, r) ->
               (String.length r < String.length s)%nat) ->
  (forall t, (String.length t + 2 <= String.length s)%nat -> e1 t = e2 t) ->
  JSONArray scan1 e1 s = JSONArray scan2 e2 s.
Proof.
  intros Hscan Hlen He. unfold JSONArray. rewrite <- Hscan.
  destruct (scan1 s) as [[v r] | ] eqn:E; [ | reflexivity ].
  specialize (Hlen v r eq_refl).
  pose proof (skip_ws_length r) as Hws.
  destruct (skip_ws r) as [ | q t]; [ reflexivity | ]. simpl in Hws.
  pose proof (skip_ws_length t) as Hws'.
  rewrite (He (skip_ws t)) by lia. reflexivity.
Qed.

Lemma JSONObject_ext scan1 m1 scan2 m2 s :
  (forall t, (String.length t + 2 <= String.length s)%nat ->
             scan1 t = scan2 t) ->
  (forall t v r, scan1 t = Some (v, r) ->
                 (String.length r < String.length t)%nat) ->
  (forall t, (String.length t + 4 <= String.length s)%nat -> m1 t = m2 t) ->
  JSONObject scan1 m1 s = JSONObject scan2 m2 s.
Proof.
  intros Hscan Hlen Hm. unfold JSONObject.
  destruct (scanstring s) as [[k r0] | ] eqn:Ek; [ | reflexivity ].
  apply (scanstring_length _ _ _ _ (le_n _)) in Ek.
  pose proof (skip_ws_length r0) as Hws0.
  destruct (skip_ws r0) as [ | q0 t0]; [ reflexivity | ]. simpl in Hws0.
  pose proof (skip_ws_length t0) as Hws1.
  rewrite <- (Hscan (skip_ws t0)) by lia.
  destruct (scan1 (skip_ws t0)) as [[v r2] | ] eqn:Ev;
    [ | bits q0; reflexivity ].
  apply Hlen in Ev.
  pose proof (skip_ws_length r2) as Hws2.
  destruct (skip_ws r2) as [ | q2 t2]; [ reflexivity | ]. simpl in Hws2.
  pose proof (skip_ws_length t2) as Hws3.
  destruct (skip_ws t2) as [ | q3 t3]; [ reflexivity | ]. simpl in Hws3.
  rewrite (Hm t3) by lia. reflexivity.
Qed.

(** Beyond two units for each character of the text, more fuel changes
    nothing. *)
Lemma parse_stable fuel :
  (forall s, (2 * String.length s + 1 <= fuel)%nat ->
             parse_value (S fuel) s = parse_value fuel s) /\
  (forall s, (2 * String.length s + 2 <= fuel)%nat ->
             parse_elems (S fuel) s = parse_elems fuel s) /\
  (forall s, (2 * String.length s + 2 <= fuel)%nat ->
             parse_members (S fuel) s = parse_members fuel s).
Proof.
  induction fuel as [ | fuel (IHv & IHe & IHm)];
    [ repeat split; intros; lia | ].
  split; [ | split ]; intros s Hs.
  - change (scan_once (parse_elems (S fuel)) (parse_members (S fuel)) s =
            scan_once (parse_elems fuel) (parse_members fuel) s).
    apply scan_once_ext; intros t Ht; [ apply IHe | apply IHm ]; lia.
  - change (JSONArray (parse_value (S fuel)) (parse_elems (S fuel)) s =
            JSONArray (parse_value fuel) (parse_elems fuel) s).
    apply JSONArray_ext.
    + apply IHv. lia.
    + intros v r. apply (proj1 (parse_consumes (S fuel))).
    + intros t Ht. apply IHe. lia.
  - change (JSONObject (parse_value (S fuel)) (parse_members (S fuel)) s =
            JSONObject (parse_value fuel) (parse_members fuel) s).
    apply JSONObject_ext.
    + intros t Ht. apply IHv. lia.
    + intros t v r. apply (proj1 (parse_consumes (S fuel))).
    + intros t Ht. apply IHm. lia.
Qed.

(** The fuel of [loads] is enough for any text: no answer of [loads] comes
    from the scanner running out of fuel. *)
Lemma loads_fuel s fuel :
  (S (2 * String.length s) <= fuel)%nat ->
  parse_value fuel (skip_ws s) =
  parse_value (S (2 * String.length s)) (skip_ws s).
Proof.
  induction 1 as [ | fuel Hle IH]; [ reflexivity | ].
  rewrite <- IH. apply (proj1 (parse_stable fuel)).
  pose proof (skip_ws_length s). lia.
Qed.

(** ** Snapshot files *)

Lemma file_get_set fs path content :
  file_get (file_set fs path content) path = Some content.
Proof.
  induction fs as [ | [p c] fs IH]; simpl.
  - now rewrite String.eqb_refl.
  - destruct (String.eqb p path) eqn:E; simpl; rewrite E; auto.
Qed.

Lemma file_set_set fs path c1 c2 :
  file_set (file_set fs path c1) path c2 = file_set fs path c2.
Proof.
  induction fs as [ | [p c] fs IH]; simpl.
  - now rewrite String.eqb_refl.
  - destruct (String.eqb p path) eqn:E; simpl; rewrite E;
      [ reflexivity | now rewrite IH ].
Qed.

(** Saving writes the text of the state document to the file of that name
    and changes nothing else. *)
Lemma save_state_file_writes writable file_name w :
  writable (state_file file_name) = true ->
  save_state_file writable file_name w =
  (Return tt,
   mkWorld (self w) (wire w)
     (file_set (files w) (state_file file_name) (dumps (state (self w))))).
Proof.
  intros Hopen.
  unfold save_state_file, write_file, bind, get_state, get_self, ret.
  rewrite Hopen. simpl. now rewrite file_set_set.
Qed.

(** Loading a file that holds the text of a document with distinct string
    keys makes that document the state document. *)
Lemma load_state_file_reads file_name w st :
  dict_wf st = true -> str_keyed st = true ->
  file_get (files w) (state_file file_name) = Some (dumps st) ->
  load_state_file file_name w = (Return tt, world_with_state w st).
Proof.
  intros Hwf Hkeys Hfile.
  unfold load_state_file, read_file, bind, lift, set_state, get_self,
    set_self, world_with_state, with_docs.
  rewrite Hfile, (loads_dumps st Hwf Hkeys). reflexivity.
Qed.

(** C7 (as amended): when every mapping of the state document has only
    string keys and the file can be written, saving under a name and
    loading that name back succeeds and leaves the session with the very
    state document that was saved; the same holds when the state document
    was changed between the save and the load. *)
Theorem save_load_roundtrip writable file_name w
  (Hwf : dict_wf (state (self w)) = true)
  (Hkeys : str_keyed (state (self w)) = true)
  (Hopen : writable (state_file file_name) = true) :
  exists w1,
    save_state_file writable file_name w = (Return tt, w1) /\
    self w1 = self w /\
    load_state_file file_name w1 = (Return tt, w1) /\
    forall st',
      load_state_file file_name (world_with_state w1 st') = (Return tt, w1).
Proof.
  eexists. split; [ apply save_state_file_writes; assumption | ].
  split; [ reflexivity | ].
  split; [ | intros st' ];
    rewrite (load_state_file_reads file_name _ (state (self w)) Hwf Hkeys)
      by (simpl; apply file_get_set);
    unfold world_with_state, with_docs; simpl;
    destruct (self w); reflexivity.
Qed.

(** The amended C7 on the session with two segments. *)
Lemma save_load_roundtrip_witness :
  exists w1,
    save_state_file all_writable "comp2" two_segment_world = (Return tt, w1) /\
    self w1 = self two_segment_world /\
    load_state_file "comp2" w1 = (Return tt, w1) /\
    forall st',
      load_state_file "comp2" (world_with_state w1 st') = (Return tt, w1).
Proof.
  apply (save_load_roundtrip all_writable "comp2" two_segment_world
           eq_refl eq_refl eq_refl).
Defined.

(** C7 (as stated) fails: on a session with a device that keeps its
    segments in an object, setting the start of segment 0 leaves the state
    document [{"seg": {0: 5}}]; it is saved with the key written as a
    string, and loaded back as [{"seg": {"0": 5}}], which is not equal to
    it. *)
Lemma save_load_int_key :
  __init__ object_device "d" blank_world = (Return tt, object_segments_world)
  /\
  SegmentListProperty.__getitem__ PropertyWLED.segment 0 object_segments_world
  = (Return (Some (segment_view 0)), object_segments_world) /\
  SegmentItem.set_start (segment_view 0) (VInt 5) object_segments_world =
  (Return tt, world_with_state object_segments_world int_key_state) /\
  exists w1 w2,
    save_state_file all_writable "comp2"
      (world_with_state object_segments_world int_key_state) = (Return tt, w1)
    /\ load_state_file "comp2" w1 = (Return tt, w2) /\
    state (self w2) = VDict [(KStr "seg", VDict [(KStr "0", VInt 5)])] /\
    state (self w2) <> int_key_state /\
    py_eq (state (self w2)) int_key_state = false.
Proof.
  split; [ vm_compute; reflexivity | ].
  split; [ reflexivity | ]. split; [ reflexivity | ].
  do 2 eexists. split; [ reflexivity | ]. split; [ vm_compute; reflexivity | ].
  split; [ reflexivity | ]. split; [ discriminate | reflexivity ].
Qed.

(** The state document a successful pull or a successful load leaves has
    distinct string keys in all its mappings: it is one the round trip
    applies to. *)
Lemma fetched_state_plain device file_name w w' :
  pull_state device w = (Return tt, w') \/
  load_state_file file_name w = (Return tt, w') ->
  plain (state (self w')).
Proof.
  intros [H | H]; revert H.
  - unfold pull_state, get_json, bind, get_self, http, lift, set_state,
      set_info, set_effects, set_palettes, set_self; simpl.
    destruct (device _ _) as [text | ]; simpl; [ | discriminate ].
    destruct (loads text) as [st | ] eqn:Est; simpl; [ | discriminate ].
    apply loads_plain in Est.
    run_transport device; intros H; inversion H; subst; exact Est.
  - unfold load_state_file, read_file, bind, lift, set_state, get_self,
      set_self; simpl.
    destruct (file_get _ _) as [text | ]; simpl; [ | discriminate ].
    destruct (loads text) as [st | ] eqn:Est; simpl; [ | discriminate ].
    apply loads_plain in Est. intros H; inversion H; subst; exact Est.
Qed.

(** * Further properties *)

(** ** Properties of a session as paths into the state document *)

Ltac unfold_accessors :=
  unfold get_field, set_field, read_path, write_path, validated,
    PropertyWLED.on, PropertyWLED.brightness, PropertyWLED.transition,
    PropertyWLED.set_on, PropertyWLED.set_brightness,
    PropertyWLED.set_transition,
    NightlightProperty.on, NightlightProperty.duration_minutes,
    NightlightProperty.mode, NightlightProperty.target_brightness,
    NightlightProperty.remaining_seconds,
    NightlightProperty.set_on, NightlightProperty.set_duration_minutes,
    NightlightProperty.set_target_brightness,
    SegmentListProperty.duration_minutes,
    SegmentListProperty.set_duration_minutes,
    SegmentItem.start, SegmentItem.set_start, SegmentItem._this_item,
    segment_view, PropertyWLED.nightlight, PropertyWLED.segment,
    PropertyWLED._nightlight_interface, PropertyWLED._segment_interface,
    PropertyWLED.sub_get, PropertyWLED.sub_set,
    bind, lift, ret, raise, get_state, get_self, set_state, set_self,
    world_with_state, with_docs.

(** Every getter reads the state document along its path and leaves the
    world alone. *)
Lemma get_field_reads f w :
  get_field f w = (get_steps (state (self w)) (read_path f), w).
Proof.
  destruct f; unfold_accessors; cbn -[py_getitem method_getitem];
    repeat match goal with
      | |- context [py_getitem ?a ?k] =>
          destruct (py_getitem a k); cbn -[py_getitem method_getitem]
      | |- context [method_getitem ?a ?k] =>
          destruct (method_getitem a k); cbn -[py_getitem method_getitem]
      end; reflexivity.
Qed.

Lemma store_along_path name k x w :
  PropertyWLED.sub_set name k x w =
  match set_steps (state (self w)) [Item (KStr name); Method k] x with
  | Return st' => (Return tt, world_with_state w st')
  | Raise e => (Raise e, w)
  end.
Proof.
  unfold_accessors; cbn -[py_getitem py_setitem method_setitem].
  destruct (py_getitem (state (self w)) (KStr name)) as [sub | e];
    cbn -[py_getitem py_setitem method_setitem]; [ | reflexivity ].
  destruct (method_setitem sub k x) as [sub' | e];
    cbn -[py_getitem py_setitem method_setitem]; [ | reflexivity ].
  destruct (py_setitem (state (self w)) (KStr name) sub'); reflexivity.
Qed.

Lemma set_mode_value p v w :
  NightlightProperty.set_mode p v w =
  match mode_value v with
  | Return n => _setter p (KStr "mode") (VInt n) w
  | Raise e => (Raise e, w)
  end.
Proof.
  unfold NightlightProperty.set_mode, mode_value, bind, lift, ret, raise.
  destruct (NightlightProperty._MODE_MAP_getitem v) as [x | []]; simpl;
    try reflexivity.
  - destruct (py_int x) as [n | e]; simpl; [ | reflexivity ].
    destruct (_verify_range (VInt n) 0 3); reflexivity.
  - destruct (py_int v) as [n | e]; simpl; [ | reflexivity ].
    destruct (_verify_range (VInt n) 0 3); reflexivity.
Qed.

Lemma store_at_top k x w :
  (st <- get_state ;;
   st' <- lift (py_setitem st k x) ;;
   set_state st') w =
  match set_steps (state (self w)) [Item k] x with
  | Return st' => (Return tt, world_with_state w st')
  | Raise e => (Raise e, w)
  end.
Proof.
  unfold_accessors; cbn -[py_setitem].
  destruct (py_setitem (state (self w)) k x); reflexivity.
Qed.

Lemma validate_then_store {A} (checked : result A) (inj : A -> value)
  (store : value -> M unit) path w :
  (forall x,
      store x w =
      match set_steps (state (self w)) path x with
      | Return st' => (Return tt, world_with_state w st')
      | Raise e => (Raise e, w)
      end) ->
  (n <- lift checked ;; store (inj n)) w =
  match rbind checked (fun n => Return (inj n)) with
  | Return x =>
      match set_steps (state (self w)) path x with
      | Return st' => (Return tt, world_with_state w st')
      | Raise e => (Raise e, w)
      end
  | Raise e => (Raise e, w)
  end.
Proof.
  intros Hstore. unfold bind, lift.
  destruct checked; simpl; [ apply Hstore | reflexivity ].
Qed.

(** Every setter validates its argument, then assigns the validated value
    along its path; when either step raises, the world is as it was. *)
Lemma set_field_writes f v w :
  set_field f v w =
  match validated f v with
  | Return x =>
      match set_steps (state (self w)) (write_path f) x with
      | Return st' => (Return tt, world_with_state w st')
      | Raise e => (Raise e, w)
      end
  | Raise e => (Raise e, w)
  end.
Proof.
  destruct f.
  - exact (validate_then_store (_verify_bool v) VBool
             (fun x => st <- get_state ;;
                       st' <- lift (py_setitem st (KStr "on") x) ;;
                       set_state st')
             _ w (fun x => store_at_top _ x w)).
  - exact (validate_then_store (_verify_int8bit v) VInt
             (fun x => st <- get_state ;;
                       st' <- lift (py_setitem st (KStr "bri") x) ;;
                       set_state st')
             _ w (fun x => store_at_top _ x w)).
  - exact (validate_then_store (_verify_int8bit v) VInt
             (fun x => st <- get_state ;;
                       st' <- lift (py_setitem st (KStr "transition") x) ;;
                       set_state st')
             _ w (fun x => store_at_top _ x w)).
  - exact (validate_then_store (_verify_bool v) VBool
             (PropertyWLED.sub_set "nl" (KStr "on"))
             _ w (fun x => store_along_path _ _ x w)).
  - exact (validate_then_store (_verify_int8bit v) VInt
             (PropertyWLED.sub_set "nl" (KStr "dur"))
             _ w (fun x => store_along_path _ _ x w)).
  - unfold set_field, validated. rewrite set_mode_value.
    destruct (mode_value v) as [n | e]; simpl; [ | reflexivity ].
    apply store_along_path.
  - exact (validate_then_store (_verify_int8bit v) VInt
             (PropertyWLED.sub_set "nl" (KStr "tbri"))
             _ w (fun x => store_along_path _ _ x w)).
  - reflexivity.
  - exact (validate_then_store (_verify_int8bit v) VInt
             (PropertyWLED.sub_set "seg" (KStr "dur"))
             _ w (fun x => store_along_path _ _ x w)).
  - exact (validate_then_store (_verify_int8bit v) VInt
             (PropertyWLED.sub_set "seg" (KInt i))
             _ w (fun x => store_along_path _ _ x w)).
Qed.

Lemma verify_range_bounds v lo hi n :
  _verify_range v lo hi = Return n -> py_int v = Return n /\ lo <= n <= hi.
Proof.
  unfold _verify_range. destruct (py_int v) as [z | e]; simpl;
    [ | discriminate ].
  destruct (z >? hi) eqn:Hhi; destruct (z <? lo) eqn:Hlo; simpl;
    try discriminate.
  intros H; inversion H; subst.
  rewrite Z.gtb_ltb in Hhi. apply Z.ltb_ge in Hhi, Hlo. split; [ easy | lia ].
Qed.

Lemma mode_value_bounds v n : mode_value v = Return n -> 0 <= n <= 3.
Proof.
  unfold mode_value.
  destruct (NightlightProperty._MODE_MAP_getitem v) as [x | []]; simpl;
    try discriminate;
    match goal with
    | |- context [py_int ?y] => destruct (py_int y) as [z | e]; simpl
    end; try discriminate; intros H; apply verify_range_bounds in H; tauto.
Qed.

(** What a setter stores fits its property. *)
Lemma validated_fits f v x : validated f v = Return x -> fits f x.
Proof.
  destruct f; simpl;
    try (intros H; inversion H; subst; eexists; reflexivity);
    try discriminate;
    try (destruct (_verify_int8bit v) as [n | e] eqn:E; simpl;
         [ | discriminate ]; intros H; inversion H; subst;
         exists n; split; [ reflexivity | ];
         eapply verify_int8bit_bounds; eassumption).
  destruct (mode_value v) as [n | e] eqn:E; simpl; [ | discriminate ].
  intros H; inversion H; subst. exists n. split; [ reflexivity | ].
  eapply mode_value_bounds; eassumption.
Qed.

Lemma set_steps_cons st s s2 p x :
  set_steps st (s :: s2 :: p) x =
  rbind (get_step st s) (fun sub =>
  rbind (set_steps sub (s2 :: p) x) (fun sub' =>
  py_setitem st (step_key s) sub')).
Proof. reflexivity. Qed.

Lemma set_steps_inv st s s2 p x st' :
  set_steps st (s :: s2 :: p) x = Return st' ->
  exists sub sub',
    get_step st s = Return sub /\
    set_steps sub (s2 :: p) x = Return sub' /\
    py_setitem st (step_key s) sub' = Return st'.
Proof.
  rewrite set_steps_cons.
  destruct (get_step st s) as [sub | e] eqn:Hget; cbn [rbind];
    [ | discriminate ].
  destruct (set_steps sub (s2 :: p) x) as [sub' | e] eqn:Hsub; cbn [rbind];
    [ | discriminate ].
  intros H. exists sub, sub'. auto.
Qed.

Lemma get_step_setitem st s y st' :
  py_setitem st (step_key s) y = Return st' -> get_step st' s = Return y.
Proof.
  intros H. apply get_step_return. eapply py_getitem_setitem; eassumption.
Qed.

(** Reading back along the path just written. *)
Lemma get_set_steps p : forall st x st',
  p <> [] -> set_steps st p x = Return st' -> get_steps st' p = Return x.
Proof.
  induction p as [ | s p IH]; intros st x st' Hp Hset; [ congruence | ].
  destruct p as [ | s2 p].
  - cbn in Hset. apply set_step_return in Hset. cbn.
    now rewrite (get_step_setitem _ _ _ _ Hset).
  - apply set_steps_inv in Hset.
    destruct Hset as (sub & sub' & _ & Hsub & Hset).
    cbn [get_steps]. rewrite (get_step_setitem _ _ _ _ Hset). cbn [rbind].
    apply IH with (st := sub); [ discriminate | assumption ].
Qed.

Lemma dict_get_set_other d a k x :
  k <> KStr a -> dict_get (dict_set d (KStr a) x) k = dict_get d k.
Proof.
  intros Hk. induction d as [ | [k' y] d IH]; cbn -[key_eqb].
  - destruct (key_eqb (KStr a) k) eqn:E; [ | reflexivity ].
    apply key_eqb_eq in E. congruence.
  - destruct (key_eqb k' (KStr a)) eqn:E; cbn -[key_eqb].
    + apply key_eqb_eq in E. subst k'.
      destruct (key_eqb (KStr a) k) eqn:E'; [ | reflexivity ].
      apply key_eqb_eq in E'. congruence.
    + now rewrite IH.
Qed.

(** Assigning under a string key succeeds on mappings only. *)
Lemma setitem_str_key st a y st' :
  py_setitem st (KStr a) y = Return st' ->
  exists d, st = VDict d /\ st' = VDict (dict_set d (KStr a) y).
Proof.
  destruct st as [ | b | z | s | l | d]; simpl; try discriminate.
  intros H; inversion H; subst. eauto.
Qed.

Lemma set_steps_str_key st s a p x st' :
  step_key s = KStr a ->
  set_steps st (s :: p) x = Return st' ->
  exists d y, st = VDict d /\ st' = VDict (dict_set d (KStr a) y).
Proof.
  intros Hkey. destruct p as [ | s2 p].
  - cbn [set_steps]. intros H. apply set_step_return in H.
    rewrite Hkey in H. apply setitem_str_key in H.
    destruct H as (d & -> & ->). eauto.
  - intros H. apply set_steps_inv in H.
    destruct H as (sub & sub' & _ & _ & H).
    rewrite Hkey in H. apply setitem_str_key in H.
    destruct H as (d & -> & ->). eauto.
Qed.

(** A write leaves what is read along a path apart from it as it was. *)
Lemma get_apart_set p q :
  apart p q ->
  forall st x st',
    set_steps st p x = Return st' -> get_steps st' q = get_steps st q.
Proof.
  induction 1 as [a s s' p q Hs Hs' | s p q Hapart IH]; intros st x st' Hset.
  - apply (set_steps_str_key _ _ a) in Hset; [ | exact Hs ].
    destruct Hset as (d & y & -> & ->).
    cbn [get_steps]. rewrite !get_step_dict. cbn [py_getitem].
    now rewrite dict_get_set_other.
  - destruct p as [ | s2 p]; [ inversion Hapart | ].
    apply set_steps_inv in Hset.
    destruct Hset as (sub & sub' & Hget & Hsub & Hset).
    cbn [get_steps]. rewrite (get_step_setitem _ _ _ _ Hset), Hget.
    cbn [rbind]. eapply IH; eassumption.
Qed.

Lemma fields_apart f g :
  f <> g -> is_segment_start f = false ->
  apart (write_path f) (read_path g).
Proof.
  intros Hfg Hf.
  destruct f; try discriminate; destruct g; try congruence; cbn;
    first [ eapply apart_here; [ reflexivity | discriminate ]
          | apply apart_next; eapply apart_here;
            [ reflexivity | discriminate ] ].
Qed.

(** X1: reading a property changes nothing; assigning to one changes
    nothing but the state document, and nothing at all when it raises. *)
Theorem field_access_effect f v w :
  snd (get_field f w) = w /\
  (exists st', snd (set_field f v w) = world_with_state w st') /\
  (forall e, fst (set_field f v w) = Raise e -> snd (set_field f v w) = w).
Proof.
  rewrite get_field_reads, set_field_writes.
  assert (Hsame : world_with_state w (state (self w)) = w).
  { unfold world_with_state, with_docs. destruct w as [[] ? ?]; reflexivity. }
  split; [ reflexivity | ].
  destruct (validated f v) as [x | e0]; cbn.
  - destruct (set_steps (state (self w)) (write_path f) x) as [st' | e0]; cbn.
    + split; [ eauto | discriminate ].
    + split; [ eauto | reflexivity ].
  - split; [ eauto | reflexivity ].
Qed.

Lemma set_then_get_run f v w w' :
  is_segment_start f = false ->
  set_field f v w = (Return tt, w') ->
  exists x, validated f v = Return x /\ get_field f w' = (Return x, w').
Proof.
  intros Hfield Hset. rewrite set_field_writes in Hset.
  destruct (validated f v) as [x | e] eqn:Hx; [ | discriminate Hset ].
  destruct (set_steps (state (self w)) (write_path f) x)
    as [st' | e] eqn:Hst; inversion Hset; subst; clear Hset.
  exists x. split; [ reflexivity | ].
  rewrite get_field_reads. cbn [world_with_state self state with_docs].
  assert (Hpath : write_path f = read_path f) by (destruct f; easy).
  rewrite Hpath in Hst.
  assert (Hcons : read_path f <> []) by (destruct f; discriminate).
  rewrite (get_set_steps _ _ _ _ Hcons Hst). reflexivity.
Qed.

(** X2: after a successful assignment to a property other than a segment
    start, reading the property returns the validated value, which fits the
    property. *)
Theorem set_then_get f v w w'
  (Hfield : is_segment_start f = false)
  (Hset : set_field f v w = (Return tt, w')) :
  exists x,
    validated f v = Return x /\ fits f x /\ get_field f w' = (Return x, w').
Proof.
  destruct (set_then_get_run f v w w' Hfield Hset) as (x & Hx & Hget).
  exists x. split; [ assumption | ].
  split; [ eapply validated_fits; eassumption | assumption ].
Qed.

(** X2 on the session [{"on": True}]: the brightness assigned as ["100"]
    reads back as the integer 100. *)
Lemma set_then_get_witness :
  exists x,
    validated Brightness (VStr "100") = Return x /\ fits Brightness x /\
    get_field Brightness
      (world_with_state lit_world
         (VDict [(KStr "on", VBool true); (KStr "bri", VInt 100)])) =
    (Return x,
     world_with_state lit_world
       (VDict [(KStr "on", VBool true); (KStr "bri", VInt 100)])).
Proof.
  apply (set_then_get Brightness (VStr "100") lit_world
           (world_with_state lit_world
              (VDict [(KStr "on", VBool true); (KStr "bri", VInt 100)]))
           eq_refl eq_refl).
Defined.

(** X3: a successful assignment to a property other than a segment start
    leaves what every other property reads as it was. *)
Theorem set_leaves_other_fields f g v w w'
  (Hother : f <> g)
  (Hfield : is_segment_start f = false)
  (Hset : set_field f v w = (Return tt, w')) :
  get_field g w' = (fst (get_field g w), w').
Proof.
  rewrite set_field_writes in Hset.
  destruct (validated f v) as [x | e] eqn:Hx; [ | discriminate Hset ].
  destruct (set_steps (state (self w)) (write_path f) x)
    as [st' | e] eqn:Hst; inversion Hset; subst; clear Hset.
  rewrite !get_field_reads. cbn [world_with_state self state with_docs fst].
  now rewrite (get_apart_set _ _ (fields_apart f g Hother Hfield) _ _ _ Hst).
Qed.

(** X3 on the session [{"on": True}]: assigning the brightness leaves
    [on] reading true. *)
Lemma set_leaves_other_fields_witness :
  get_field On
    (world_with_state lit_world
       (VDict [(KStr "on", VBool true); (KStr "bri", VInt 100)])) =
  (Return (VBool true),
   world_with_state lit_world
     (VDict [(KStr "on", VBool true); (KStr "bri", VInt 100)])).
Proof.
  apply (set_leaves_other_fields Brightness On (VInt 100) lit_world
           (world_with_state lit_world
              (VDict [(KStr "on", VBool true); (KStr "bri", VInt 100)])));
    [ discriminate | reflexivity | reflexivity ].
Defined.

(** X4: on a state document that is a mapping, the setter of a top-level
    property creates the field when it is missing: with a valid argument it
    always succeeds. *)
Theorem top_level_setter_creates f v w d x
  (Htop : sub_object f = None)
  (Hdict : state (self w) = VDict d)
  (Hvalid : validated f v = Return x) :
  exists w',
    set_field f v w = (Return tt, w') /\ get_field f w' = (Return x, w').
Proof.
  assert (Hset : exists w', set_field f v w = (Return tt, w')).
  { rewrite set_field_writes, Hvalid, Hdict.
    destruct f; try discriminate; cbn; eauto. }
  destruct Hset as (w' & Hset). exists w'. split; [ assumption | ].
  destruct (set_then_get_run f v w w') as (y & Hy & Hget);
    [ destruct f; easy | assumption | ].
  congruence.
Qed.

(** X4 on the session [{"on": True}], which has no transition yet. *)
Lemma top_level_setter_creates_witness :
  get_field Transition lit_world = (Raise KeyError, lit_world) /\
  exists w',
    set_field Transition (VInt 7) lit_world = (Return tt, w') /\
    get_field Transition w' = (Return (VInt 7), w').
Proof.
  split; [ reflexivity | ].
  apply (top_level_setter_creates Transition (VInt 7) lit_world
           [(KStr "on", VBool true)] (VInt 7) eq_refl eq_refl eq_refl).
Defined.

(** X5: a property of the nightlight or of the segments needs its
    sub-object: when the state document is a mapping without it, reading
    raises KeyError, and so does assigning a valid argument, which changes
    nothing. *)
Theorem nested_field_needs_object f v w d name x
  (Hnested : sub_object f = Some name)
  (Hdict : state (self w) = VDict d)
  (Hmissing : dict_get d (KStr name) = None)
  (Hvalid : validated f v = Return x) :
  get_field f w = (Raise KeyError, w) /\
  set_field f v w = (Raise KeyError, w).
Proof.
  rewrite get_field_reads, set_field_writes, Hvalid, Hdict.
  destruct f; try discriminate; cbn in Hnested; inversion Hnested; subst;
    cbn -[dict_get]; rewrite Hmissing; split; reflexivity.
Qed.

(** X5 on the session [{"on": True}], which has no nightlight object. *)
Lemma nested_field_needs_object_witness :
  get_field NightlightOn lit_world = (Raise KeyError, lit_world) /\
  set_field NightlightOn (VBool true) lit_world = (Raise KeyError, lit_world).
Proof.
  apply (nested_field_needs_object NightlightOn (VBool true) lit_world
           [(KStr "on", VBool true)] "nl" (VBool true)
           eq_refl eq_refl eq_refl eq_refl).
Defined.

(** ** String keys are kept *)

Lemma plain_atom v : atom v -> plain v.
Proof.
  destruct v as [ | b | z | s | [ | ] | [ | ]]; simpl; try contradiction;
    intros _; split; reflexivity.
Qed.

Lemma fits_plain f x : fits f x -> plain x.
Proof.
  destruct f; simpl; intros H;
    first [ destruct H as (b & ->) | destruct H as (n & -> & _) ];
    split; reflexivity.
Qed.

Lemma nth_error_Forall {A} (P : A -> Prop) l n x :
  Forall P l -> nth_error l n = Some x -> P x.
Proof.
  intros Hl Hn. apply nth_error_In in Hn.
  rewrite Forall_forall in Hl. auto.
Qed.

Lemma dict_get_Forall (P : key * value -> Prop) d k x :
  Forall P d -> dict_get d k = Some x -> exists k', P (k', x).
Proof.
  induction 1 as [ | [a y] d Hy _ IH]; simpl; [ discriminate | ].
  destruct (key_eqb a k); [ | exact IH ].
  intros H; inversion H; subst. eauto.
Qed.

(** What is found in a document with string keys has string keys. *)
Lemma plain_getitem st k sub :
  plain st -> py_getitem st k = Return sub -> plain sub.
Proof.
  intros Hst. destruct st as [ | b | z | s | l | d]; simpl; try discriminate.
  - destruct k as [a | i]; [ discriminate | ].
    destruct (seq_index _ i) as [n | ]; [ | discriminate ].
    destruct (String.get n s); [ | discriminate ].
    intros H; inversion H; subst. split; reflexivity.
  - destruct k as [a | i]; [ discriminate | ].
    destruct (seq_index _ i) as [n | ]; [ | discriminate ].
    destruct (nth_error l n) as [y | ] eqn:E; [ | discriminate ].
    intros H; inversion H; subst.
    apply plain_list in Hst. eapply nth_error_Forall; eassumption.
  - destruct (dict_get d k) as [y | ] eqn:E; [ | discriminate ].
    intros H; inversion H; subst.
    apply plain_dict in Hst. destruct Hst as [_ Hall].
    destruct (dict_get_Forall _ _ _ _ Hall E) as (k' & _ & Hy). exact Hy.
Qed.

Lemma Forall_list_set {A} (P : A -> Prop) l n x :
  Forall P l -> P x -> Forall P (list_set l n x).
Proof.
  intros Hl Hx. revert n.
  induction Hl as [ | y l Hy Hl IH]; intros [ | n]; simpl; auto.
Qed.

(** Assigning a document with string keys, under a string key or into a
    list, gives a document with string keys. *)
Lemma plain_setitem st k x st' :
  plain st -> plain x -> (is_str_key k = true \/ exists l, st = VList l) ->
  py_setitem st k x = Return st' -> plain st'.
Proof.
  intros Hst Hx Hk.
  destruct st as [ | b | z | s | l | d]; simpl; try discriminate.
  - destruct k as [a | i]; [ discriminate | ].
    destruct (seq_index _ i) as [n | ]; [ | discriminate ].
    intros H; inversion H; subst.
    apply plain_list. apply Forall_list_set; [ | assumption ].
    now apply plain_list.
  - intros H; inversion H; subst.
    destruct Hk as [Hk | (l & Hl)]; [ | discriminate ].
    destruct k as [a | i]; [ | discriminate ].
    apply plain_dict in Hst. destruct Hst as [Hd Hall].
    apply plain_dict. split; [ now apply distinct_dict_set | ].
    apply Forall_dict_set; simpl; [ assumption | now split | ].
    intros a' y [Ha _]. now split.
Qed.

Lemma set_steps_plain p : forall st x st',
  plain st -> plain x -> forallb is_str_key (map step_key p) = true ->
  set_steps st p x = Return st' -> plain st'.
Proof.
  induction p as [ | s p IH]; intros st x st' Hst Hx Hkeys Hset.
  - inversion Hset; subst. assumption.
  - simpl in Hkeys. apply andb_true_iff in Hkeys. destruct Hkeys as [Hk Hkeys].
    destruct p as [ | s2 p].
    + cbn [set_steps] in Hset. apply set_step_return in Hset.
      eapply plain_setitem;
        [ exact Hst | exact Hx | left; exact Hk | exact Hset ].
    + apply set_steps_inv in Hset.
      destruct Hset as (sub & sub' & Hget & Hsub & Hset).
      apply get_step_return in Hget.
      apply (plain_setitem st (step_key s) sub' st');
        [ exact Hst | | left; exact Hk | exact Hset ].
      apply (IH sub x sub'); try assumption.
      exact (plain_getitem st (step_key s) sub Hst Hget).
Qed.

(** The state document a setter leaves has string keys when the one it
    found had, unless it is the setter of a segment start and the segments
    are kept in a mapping. *)
Lemma set_field_plain f v w r w' :
  plain (state (self w)) ->
  keeps_keys (OpSet f v) (state (self w)) = true ->
  set_field f v w = (r, w') -> plain (state (self w')).
Proof.
  intros Hst Hkeep. rewrite set_field_writes.
  destruct (validated f v) as [x | e] eqn:Hx;
    [ | intros H; inversion H; subst; assumption ].
  destruct (set_steps (state (self w)) (write_path f) x)
    as [st' | e] eqn:Hset; intros H; inversion H; subst; [ | assumption ].
  cbn [world_with_state self state with_docs].
  pose proof (fits_plain _ _ (validated_fits _ _ _ Hx)) as Hplain.
  destruct (is_segment_start f) eqn:Hf.
  - destruct f; try discriminate. cbn in Hkeep, Hset.
    unfold seg_is_dict in Hkeep. cbn in Hkeep.
    destruct (py_getitem (state (self w)) (KStr "seg")) as [seg | e] eqn:Hseg;
      [ | discriminate Hset ].
    cbn in Hset, Hkeep.
    destruct (method_setitem seg (KInt i) x) as [seg' | e] eqn:Hseg';
      [ | discriminate Hset ].
    cbn in Hset. apply method_setitem_return in Hseg'.
    apply (plain_setitem (state (self w)) (KStr "seg") seg' st');
      [ exact Hst | | left; reflexivity | exact Hset ].
    apply (plain_setitem seg (KInt i) x seg');
      [ exact (plain_getitem _ _ _ Hst Hseg) | exact Hplain | | exact Hseg' ].
    right. destruct seg; try discriminate; eauto.
  - eapply set_steps_plain; [ exact Hst | exact Hplain | | exact Hset ].
    destruct f; try discriminate; reflexivity.
Qed.

(** ** Segments *)

Lemma getitem_run i w :
  SegmentListProperty.__getitem__ PropertyWLED.segment i w =
  (rbind
     (get_steps (info (self w)) [Method (KStr "leds"); Item (KStr "maxseg")])
     (fun m =>
      rbind (SegmentListProperty.int_lt i m) (fun b =>
      Return (if b then Some (segment_view i) else None))), w).
Proof.
  unfold SegmentListProperty.__getitem__, PropertyWLED.segment,
    PropertyWLED._segment_interface, PropertyWLED.info_get, bind, get_info,
    get_self, lift, ret; cbn -[py_getitem method_getitem].
  destruct (method_getitem (info (self w)) (KStr "leds")) as [leds | e];
    cbn -[py_getitem]; [ | reflexivity ].
  destruct (py_getitem leds (KStr "maxseg")) as [m | e]; cbn; [ | reflexivity ].
  destruct (SegmentListProperty.int_lt i m) as [[] | e]; reflexivity.
Qed.

(** X6: indexing the segment list changes nothing; the view it returns is
    bound to the index asked for, and every smaller index is given a view
    as well. *)
Theorem segment_index_downward i j w w' it
  (Hle : j <= i)
  (Hview :
     SegmentListProperty.__getitem__ PropertyWLED.segment i w =
     (Return (Some it), w')) :
  w' = w /\ it = segment_view i /\
  SegmentListProperty.__getitem__ PropertyWLED.segment j w =
  (Return (Some (segment_view j)), w).
Proof.
  rewrite getitem_run in Hview. rewrite getitem_run.
  destruct (get_steps (info (self w)) _)
    as [m | e]; cbn [rbind] in *; [ | discriminate Hview ].
  destruct m as [ | b | m | s | l | d]; cbn in Hview; try discriminate Hview.
  - destruct (Z.ltb i (if b then 1 else 0)) eqn:E; inversion Hview; subst.
    cbn. apply Z.ltb_lt in E.
    assert (Hj : Z.ltb j (if b then 1 else 0) = true) by (apply Z.ltb_lt; lia).
    rewrite Hj. auto.
  - destruct (Z.ltb i m) eqn:E; inversion Hview; subst.
    cbn. apply Z.ltb_lt in E.
    assert (Hj : Z.ltb j m = true) by (apply Z.ltb_lt; lia).
    rewrite Hj. auto.
Qed.

(** X6 on the session with [maxseg = 2]: index 1 is given a view, and so
    is index -5. *)
Lemma segment_index_downward_witness :
  SegmentListProperty.__getitem__ PropertyWLED.segment 1 two_segment_world =
  (Return (Some (segment_view 1)), two_segment_world) /\
  SegmentListProperty.__getitem__ PropertyWLED.segment (-5)
    two_segment_world =
  (Return (Some (segment_view (-5))), two_segment_world).
Proof.
  split; [ reflexivity | ].
  assert (Hle : -5 <= 1) by lia.
  exact (proj2 (proj2 (segment_index_downward 1 (-5) two_segment_world
                         two_segment_world (segment_view 1) Hle eq_refl))).
Defined.

Lemma no_int_key d i :
  forallb is_str_key (map fst d) = true -> dict_get d (KInt i) = None.
Proof.
  induction d as [ | [k x] d IH]; simpl; [ reflexivity | ].
  intros H. apply andb_true_iff in H. destruct H as [Hk Hd].
  destruct k; [ | discriminate ]. simpl. auto.
Qed.

Lemma plain_str_keys d :
  plain (VDict d) -> forallb is_str_key (map fst d) = true.
Proof.
  intros H. apply plain_dict in H. destruct H as [_ Hall].
  induction Hall as [ | [k x] d [Hk _] _ IH]; simpl; [ reflexivity | ].
  simpl in Hk. now rewrite Hk, IH.
Qed.

(** X7: on a state document with string keys only (as every document read
    from the device or from a file is), the start of a segment and the
    duration of the segment list cannot both be read: reading the start
    raises KeyError when there are no segments or they are a mapping,
    reading the duration raises TypeError when they are a list or a
    string, and both raise AttributeError when [state["seg"]] is [None], a
    boolean or an integer, which has no [__getitem__] to call. *)
Theorem segment_fields_exclusive i w
  (Hplain : plain (state (self w))) :
  get_field (SegmentStart i) w = (Raise KeyError, w) \/
  get_field SegmentDuration w = (Raise TypeError, w) \/
  get_field (SegmentStart i) w = (Raise AttributeError, w) /\
  get_field SegmentDuration w = (Raise AttributeError, w).
Proof.
  rewrite !get_field_reads. cbn [read_path get_steps get_step].
  destruct (py_getitem (state (self w)) (KStr "seg")) as [seg | e] eqn:Hseg.
  - pose proof (plain_getitem _ _ _ Hplain Hseg) as Hplain'.
    destruct seg as [ | b | z | s | l | d];
      try (right; left; reflexivity);
      try (right; right; split; reflexivity).
    left. cbn. now rewrite (no_int_key d i (plain_str_keys d Hplain')).
  - destruct (state (self w)) as [ | b | z | s | l | d]; cbn in Hseg;
      try (inversion Hseg; subst; right; left; reflexivity).
    destruct (dict_get d (KStr "seg")); inversion Hseg; subst.
    left. reflexivity.
Qed.

(** X7 on the session with a list of two segments: the start of segment 0
    reads 0, so the duration of the segment list does not read. *)
Lemma segment_fields_exclusive_witness :
  get_field (SegmentStart 0) two_segment_world =
  (Return (VInt 0), two_segment_world) /\
  get_field SegmentDuration two_segment_world =
  (Raise TypeError, two_segment_world).
Proof.
  split; [ reflexivity | ].
  assert (Hplain : plain (state (self two_segment_world)))
    by (split; reflexivity).
  destruct (segment_fields_exclusive 0 two_segment_world Hplain)
    as [Hstart | [Hdur | [Hstart _]]];
    [ discriminate Hstart | exact Hdur | discriminate Hstart ].
Defined.

Lemma get_path_one st k x :
  get_path st [k] = Return x -> py_getitem st k = Return x.
Proof.
  cbn. destruct (py_getitem st k); cbn; congruence.
Qed.

(** X8: a view can be handed out for a segment that is not there: when the
    segments are a list and the index is below [maxseg] but outside the
    list, indexing returns a view, and reading or setting its start raises
    IndexError and changes nothing. *)
Theorem view_beyond_segments i v w l m n
  (Hmax : get_path (info (self w)) [KStr "leds"; KStr "maxseg"]
          = Return (VInt m))
  (Hbelow : i < m)
  (Hseg : get_path (state (self w)) [KStr "seg"] = Return (VList l))
  (Houtside : seq_index (List.length l) i = None)
  (Hvalid : _verify_int8bit v = Return n) :
  SegmentListProperty.__getitem__ PropertyWLED.segment i w =
  (Return (Some (segment_view i)), w) /\
  get_field (SegmentStart i) w = (Raise IndexError, w) /\
  set_field (SegmentStart i) v w = (Raise IndexError, w).
Proof.
  apply get_path_one in Hseg.
  apply (get_steps_of_path [Method (KStr "leds"); Item (KStr "maxseg")])
    in Hmax.
  rewrite getitem_run, get_field_reads, set_field_writes, Hmax.
  cbn [rbind SegmentListProperty.int_lt validated read_path write_path].
  apply Z.ltb_lt in Hbelow. rewrite Hbelow, Hvalid.
  cbn -[seq_index]. rewrite Hseg. cbn -[seq_index]. rewrite Houtside.
  auto.
Qed.

(** X8 on a session with [maxseg = 2] and no segment. *)
Lemma view_beyond_segments_witness :
  SegmentListProperty.__getitem__ PropertyWLED.segment 0
    (world_with_state two_segment_world (VDict [(KStr "seg", VList [])])) =
  (Return (Some (segment_view 0)),
   world_with_state two_segment_world (VDict [(KStr "seg", VList [])])) /\
  get_field (SegmentStart 0)
    (world_with_state two_segment_world (VDict [(KStr "seg", VList [])])) =
  (Raise IndexError,
   world_with_state two_segment_world (VDict [(KStr "seg", VList [])])) /\
  set_field (SegmentStart 0) (VInt 5)
    (world_with_state two_segment_world (VDict [(KStr "seg", VList [])])) =
  (Raise IndexError,
   world_with_state two_segment_world (VDict [(KStr "seg", VList [])])).
Proof.
  apply (view_beyond_segments 0 (VInt 5)
           (world_with_state two_segment_world
              (VDict [(KStr "seg", VList [])])) [] 2 5);
    [ reflexivity | lia | reflexivity | reflexivity | reflexivity ].
Defined.

(** X9: on a list of segments a negative index counts from the end: the
    view bound to [i] reads and writes the same slot as the view bound to
    [i + len]. *)
Theorem negative_index_aliases i v w l
  (Hseg : get_path (state (self w)) [KStr "seg"] = Return (VList l))
  (Hneg : - Z.of_nat (List.length l) <= i < 0) :
  get_field (SegmentStart i) w =
  get_field (SegmentStart (i + Z.of_nat (List.length l))) w /\
  set_field (SegmentStart i) v w =
  set_field (SegmentStart (i + Z.of_nat (List.length l))) v w.
Proof.
  apply get_path_one in Hseg.
  assert (Hidx : seq_index (List.length l) i =
                 seq_index (List.length l) (i + Z.of_nat (List.length l))).
  { unfold seq_index.
    destruct (i <? 0) eqn:E1; [ | apply Z.ltb_ge in E1; lia ].
    destruct (i + Z.of_nat (List.length l) <? 0) eqn:E2;
      [ apply Z.ltb_lt in E2; lia | reflexivity ]. }
  rewrite !get_field_reads, !set_field_writes.
  cbn [validated read_path write_path].
  destruct (_verify_int8bit v) as [n | e]; cbn -[seq_index];
    rewrite Hseg; cbn -[seq_index]; rewrite Hidx; split; reflexivity.
Qed.

(** X9 on the session with two segments: index -1 is segment 1. *)
Lemma negative_index_aliases_witness :
  get_field (SegmentStart (-1)) two_segment_world =
  get_field (SegmentStart 1) two_segment_world /\
  set_field (SegmentStart (-1)) (VInt 9) two_segment_world =
  set_field (SegmentStart 1) (VInt 9) two_segment_world.
Proof.
  apply (negative_index_aliases (-1) (VInt 9) two_segment_world
           [VDict [(KStr "start", VInt 0)]; VDict [(KStr "start", VInt 7)]]);
    [ reflexivity | simpl; lia ].
Defined.

Lemma nth_error_list_set_other {A} (l : list A) n m a :
  n <> m -> nth_error (list_set l n a) m = nth_error l m.
Proof.
  revert n m. induction l as [ | x l IH]; intros [ | n] [ | m] H; simpl;
    try reflexivity; try congruence.
  apply IH. congruence.
Qed.

(** X10: on a list of segments, setting the start of one segment leaves what
    the views of the segments at other positions read as it was, and
    leaves every property outside the segments as it was. *)
Theorem set_start_leaves_other_segments i v w w' l p g
  (Hseg : get_path (state (self w)) [KStr "seg"] = Return (VList l))
  (Hpos : seq_index (List.length l) i = Some p)
  (Hother :
     match g with
     | SegmentStart k =>
         exists q, seq_index (List.length l) k = Some q /\ q <> p
     | _ => True
     end)
  (Hset : set_field (SegmentStart i) v w = (Return tt, w')) :
  get_field g w' = (fst (get_field g w), w').
Proof.
  apply get_path_one in Hseg.
  rewrite set_field_writes in Hset. cbn [validated write_path] in Hset.
  destruct (_verify_int8bit v) as [n | e]; [ | discriminate Hset ].
  cbn -[seq_index] in Hset. rewrite Hseg in Hset. cbn -[seq_index] in Hset.
  rewrite Hpos in Hset. cbn -[seq_index] in Hset.
  destruct (state (self w)) as [ | b | z | s | l0 | d] eqn:Hst;
    try (cbn in Hseg; discriminate Hseg).
  cbn in Hset. inversion Hset; subst; clear Hset.
  rewrite !get_field_reads, Hst.
  cbn [world_with_state self state with_docs fst].
  destruct g; cbn [read_path get_steps get_step];
    try (cbn [py_getitem]; rewrite dict_get_set_other by discriminate;
         reflexivity);
    cbn [py_getitem]; rewrite dict_get_set; cbn in Hseg;
    destruct (dict_get d (KStr "seg")) as [seg | ]; inversion Hseg; subst;
    cbn -[seq_index]; rewrite ?length_list_set; try reflexivity.
  destruct Hother as (q & Hq & Hqp). rewrite Hq.
  rewrite nth_error_list_set_other by congruence. reflexivity.
Qed.

(** X10 on the session with two segments: after the start of segment 0 is
    set, the start of segment 1 still reads 7. *)
Lemma set_start_leaves_other_segments_witness :
  get_field (SegmentStart 1)
    (world_with_state two_segment_world
       (VDict
          [(KStr "seg", VList [VInt 3; VDict [(KStr "start", VInt 7)]]);
           (KStr "nl", VDict [])])) =
  (Return (VInt 7),
   world_with_state two_segment_world
     (VDict
        [(KStr "seg", VList [VInt 3; VDict [(KStr "start", VInt 7)]]);
         (KStr "nl", VDict [])])).
Proof.
  apply (set_start_leaves_other_segments 0 (VInt 3) two_segment_world
           (world_with_state two_segment_world
              (VDict
                 [(KStr "seg",
                   VList [VInt 3; VDict [(KStr "start", VInt 7)]]);
                  (KStr "nl", VDict [])]))
           [VDict [(KStr "start", VInt 0)]; VDict [(KStr "start", VInt 7)]]
           0%nat (SegmentStart 1));
    [ reflexivity | reflexivity | | reflexivity ].
  exists 1%nat. split; [ reflexivity | discriminate ].
Defined.

(** ** The store of a session *)

Lemma loaded_run w :
  loaded w =
  (rbind (len_keys (state (self w))) (fun a =>
   rbind (len_keys (info (self w))) (fun b =>
   rbind (py_len (effects (self w))) (fun c =>
   rbind (py_len (palettes (self w))) (fun d =>
   Return (negb (a =? 0) && negb (b =? 0) && negb (c =? 0)
           && negb (d =? 0)))))), w).
Proof.
  unfold loaded, bind, get_self, lift, ret.
  destruct (len_keys (state (self w))); cbn [rbind]; [ | reflexivity ].
  destruct (len_keys (info (self w))); cbn [rbind]; [ | reflexivity ].
  destruct (py_len (effects (self w))); cbn [rbind]; [ | reflexivity ].
  destruct (py_len (palettes (self w))); reflexivity.
Qed.

Lemma len_keys_cases v :
  (mapping v /\
   exists n, len_keys v = Return n /\ negb (n =? 0) = py_bool v) \/
  (~ mapping v /\ len_keys v = Raise AttributeError).
Proof.
  destruct v as [ | b | z | s | l | d];
    try (right; split; [ intros [d' H]; discriminate H | reflexivity ]).
  left. split; [ exists d; reflexivity | ].
  eexists. split; [ reflexivity | ]. destruct d; reflexivity.
Qed.

Lemma py_len_cases v :
  (sized v /\
   exists n, py_len v = Return n /\ negb (n =? 0) = py_bool v) \/
  (~ sized v /\ py_len v = Raise TypeError).
Proof.
  destruct v as [ | b | z | s | l | d];
    try (right; split;
         [ intros [[? H] | [[? H] | [? H]]]; discriminate H | reflexivity ]).
  - left. split; [ left; eauto | ].
    eexists. split; [ reflexivity | ]. destruct s; reflexivity.
  - left. split; [ right; left; eauto | ].
    eexists. split; [ reflexivity | ]. destruct l; reflexivity.
  - left. split; [ right; right; eauto | ].
    eexists. split; [ reflexivity | ]. destruct d; reflexivity.
Qed.

Lemma py_bool_true_iff v : py_bool v = true <-> ~ falsy v.
Proof.
  rewrite <- py_bool_false_iff. destruct (py_bool v); split; congruence.
Qed.

Ltac loaded_raises :=
  repeat match goal with |- _ /\ _ => split end;
  try match goal with
    | |- forall e, _ = Raise e -> _ =>
        let H := fresh in intros ? H; inversion H; auto
    end;
  try (split; intros H;
       first [ discriminate H
             | reflexivity
             | match type of H with
               | ex _ => destruct H as [? H]; discriminate H
               end
             | tauto ]).

(** X11: [loaded] changes nothing, and what it does is settled by the kinds
    of the four documents, looked at in the order state, info, effects,
    palettes.  It raises AttributeError exactly when the state or the info
    document is not a mapping (a JSON array served for it, say); it raises
    TypeError exactly when those two are mappings and the effects or the
    palettes have no length; it raises nothing else; it returns exactly
    when the two are mappings and the other two have a length, and then
    returns true exactly when none of the four is empty. *)
Theorem loaded_outcome w :
  snd (loaded w) = w /\
  (fst (loaded w) = Raise AttributeError <->
   ~ mapping (state (self w)) \/ ~ mapping (info (self w))) /\
  (fst (loaded w) = Raise TypeError <->
   mapping (state (self w)) /\ mapping (info (self w)) /\
   (~ sized (effects (self w)) \/ ~ sized (palettes (self w)))) /\
  (forall e, fst (loaded w) = Raise e -> e = AttributeError \/ e = TypeError) /\
  ((exists b, fst (loaded w) = Return b) <->
   mapping (state (self w)) /\ mapping (info (self w)) /\
   sized (effects (self w)) /\ sized (palettes (self w))) /\
  (fst (loaded w) = Return true <->
   (mapping (state (self w)) /\ ~ falsy (state (self w))) /\
   (mapping (info (self w)) /\ ~ falsy (info (self w))) /\
   (sized (effects (self w)) /\ ~ falsy (effects (self w))) /\
   (sized (palettes (self w)) /\ ~ falsy (palettes (self w)))).
Proof.
  rewrite loaded_run. cbn [fst snd]. split; [ reflexivity | ].
  rewrite <- !py_bool_true_iff.
  destruct (len_keys_cases (state (self w)))
    as [(H1 & a & -> & Ha) | (H1 & ->)]; cbn [rbind];
    [ | loaded_raises ].
  destruct (len_keys_cases (info (self w)))
    as [(H2 & b & -> & Hb) | (H2 & ->)]; cbn [rbind];
    [ | loaded_raises ].
  destruct (py_len_cases (effects (self w)))
    as [(H3 & c & -> & Hc) | (H3 & ->)]; cbn [rbind];
    [ | loaded_raises ].
  destruct (py_len_cases (palettes (self w)))
    as [(H4 & d & -> & Hd) | (H4 & ->)]; cbn [rbind];
    [ | loaded_raises ].
  rewrite Ha, Hb, Hc, Hd.
  split; [ split; [ discriminate | tauto ] | ].
  split; [ split; [ discriminate | tauto ] | ].
  split; [ discriminate | ].
  split; [ split; [ tauto | eauto ] | ].
  split.
  - intros H. inversion H as [H']. rewrite H'.
    repeat (apply andb_true_iff in H'; destruct H' as [H' ?]). tauto.
  - intros ((_ & ->) & (_ & ->) & (_ & ->) & (_ & ->)). reflexivity.
Qed.

Lemma pull_state_session device o o' log fs :
  ip_addr o' = ip_addr o ->
  fst (pull_state device (mkWorld o log fs)) = Return tt ->
  pull_state device (mkWorld o' log fs) =
  pull_state device (mkWorld o log fs).
Proof.
  destruct o as [ip st inf eff pal], o' as [ip' st' inf' eff' pal'].
  cbn [ip_addr]. intros ->.
  unfold pull_state, get_json, bind, get_self, http, lift, set_state,
    set_info, set_effects, set_palettes, set_self; simpl.
  run_transport device; intros H; try discriminate H; reflexivity.
Qed.

Lemma pull_state_success device w w' :
  pull_state device w = (Return tt, w') ->
  wire w' = fetched w ["state"; "info"; "eff"; "pal"] /\
  files w' = files w /\ ip_addr (self w') = ip_addr (self w) /\
  exists t1 t2 t3 t4,
    loads t1 = Return (state (self w')) /\
    loads t2 = Return (info (self w')) /\
    loads t3 = Return (effects (self w')) /\
    loads t4 = Return (palettes (self w')).
Proof.
  unfold pull_state, get_json, bind, get_self, http, lift, set_state,
    set_info, set_effects, set_palettes, set_self, fetched, endpoint_url;
    simpl.
  repeat match goal with
    | |- context [device ?log ?req] => destruct (device log req); simpl
    | |- context [loads ?text] =>
        let E := fresh "E" in destruct (loads text) eqn:E; simpl
    end; intros H; inversion H; subst; simpl.
  rewrite <- ?List.app_assoc. simpl.
  split; [ reflexivity | ]. split; [ reflexivity | ].
  split; [ reflexivity | ]. eauto 10.
Qed.

(** X12: a pull that succeeds has sent the four GET requests in the order
    state, info, eff, pal and nothing else, has left the files and the
    address alone, and has replaced all four documents by documents with
    string keys only.  The session it leaves does not depend on the
    documents held before, so the constructor, run with the same address
    and the same traffic so far, makes that very session. *)
Theorem pull_replaces_documents device w w'
  (Hpull : pull_state device w = (Return tt, w')) :
  wire w' = fetched w ["state"; "info"; "eff"; "pal"] /\
  files w' = files w /\ ip_addr (self w') = ip_addr (self w) /\
  (plain (state (self w')) /\ plain (info (self w')) /\
   plain (effects (self w')) /\ plain (palettes (self w'))) /\
  (forall st inf eff pal,
     pull_state device
       (mkWorld (with_docs (self w) st inf eff pal) (wire w) (files w)) =
     (Return tt, w')) /\
  __init__ device (ip_addr (self w)) w = (Return tt, w').
Proof.
  destruct (pull_state_success device w w' Hpull)
    as (Hwire & Hfiles & Hip & t1 & t2 & t3 & t4 & H1 & H2 & H3 & H4).
  split; [ exact Hwire | ]. split; [ exact Hfiles | ].
  split; [ exact Hip | ].
  split; [ repeat split; eapply loads_plain; eassumption | ].
  assert (Hw : w = mkWorld (self w) (wire w) (files w)) by now destruct w.
  assert (Hfst : fst (pull_state device
                        (mkWorld (self w) (wire w) (files w))) = Return tt)
    by now rewrite <- Hw, Hpull.
  split.
  - intros st inf eff pal.
    rewrite (pull_state_session device (self w)) by assumption || reflexivity.
    now rewrite <- Hw.
  - unfold __init__, bind, set_self. cbn [fst snd].
    rewrite (pull_state_session device (self w)) by assumption || reflexivity.
    now rewrite <- Hw.
Qed.

(** X12 on the session [{"on": True}] and a device answering [{}]. *)
Lemma pull_replaces_documents_witness :
  pull_state empty_device lit_world =
  (Return tt,
   mkWorld (mkWLED "d" (VDict []) (VDict []) (VDict []) (VDict []))
     [GET "http://d/json/state"; GET "http://d/json/info";
      GET "http://d/json/eff"; GET "http://d/json/pal"] []) /\
  __init__ empty_device "d" lit_world =
  (Return tt,
   mkWorld (mkWLED "d" (VDict []) (VDict []) (VDict []) (VDict []))
     [GET "http://d/json/state"; GET "http://d/json/info";
      GET "http://d/json/eff"; GET "http://d/json/pal"] []).
Proof.
  split; [ reflexivity | ].
  destruct (pull_replaces_documents empty_device lit_world
              (mkWorld
                 (mkWLED "d" (VDict []) (VDict []) (VDict []) (VDict []))
                 [GET "http://d/json/state"; GET "http://d/json/info";
                  GET "http://d/json/eff"; GET "http://d/json/pal"] [])
              eq_refl) as (_ & _ & _ & _ & _ & Hinit).
  exact Hinit.
Defined.

(** X13: whatever the device does, a reboot leaves the state document
    [{"rb": True}] in the session: the documents pulled before are gone
    from it, every property raises KeyError until the state is pulled or
    loaded again, and the next push sends the reboot request once more. *)
Theorem reboot_leaves_flag device w :
  let rb := VDict [(KStr "rb", VBool true)] in
  let url := endpoint_url (ip_addr (self w)) "state" in
  let w' := snd (PropertyWLED.reboot_wled device w) in
  state (self w') = rb /\
  wire w' = (wire w ++ [POST url rb])%list /\
  (forall f, get_field f w' = (Raise KeyError, w')) /\
  wire (snd (push_state device false w')) =
  (wire w ++ [POST url rb; POST url rb])%list.
Proof.
  intros rb url w'.
  assert (Hw' : w' =
    mkWorld (with_docs (self w) rb (info (self w)) (effects (self w))
               (palettes (self w)))
      (wire w ++ [POST url rb]) (files w)).
  { unfold w', PropertyWLED.reboot_wled, bind, set_state, get_self, set_self.
    cbn -[push_state]. rewrite push_state_plain. reflexivity. }
  rewrite Hw'. split; [ reflexivity | ]. split; [ reflexivity | ]. split.
  - intros f. rewrite get_field_reads. destruct f; reflexivity.
  - rewrite push_state_plain. cbn. rewrite <- List.app_assoc. reflexivity.
Qed.

(** X14: a push that asks for the response needs a mapping as state
    document: on any other document (a JSON array loaded from a file or
    answered by the device, say) it raises AttributeError before anything
    is sent, while the push without response sends that document. *)
Theorem push_verbose_needs_mapping device w
  (Hstate : forall d, state (self w) <> VDict d) :
  push_state device true w = (Raise AttributeError, w) /\
  wire (snd (push_state device false w)) =
  (wire w ++
   [POST (endpoint_url (ip_addr (self w)) "state") (state (self w))])%list.
Proof.
  split; [ | rewrite push_state_plain; reflexivity ].
  unfold push_state, bind, get_state, get_self, lift.
  destruct (state (self w)) as [ | ? | ? | ? | ? | d] eqn:Hst; cbn;
    rewrite ?Hst; try reflexivity.
  now contradiction (Hstate d).
Qed.

(** X14 on a session whose state document is the empty list. *)
Lemma push_verbose_needs_mapping_witness :
  push_state empty_device true (world_with_state lit_world (VList [])) =
  (Raise AttributeError, world_with_state lit_world (VList [])) /\
  wire (snd (push_state empty_device false
               (world_with_state lit_world (VList [])))) =
  [POST "http://d/json/state" (VList [])].
Proof.
  assert (Hstate : forall d,
            state (self (world_with_state lit_world (VList []))) <> VDict d)
    by (intros d; discriminate).
  exact (push_verbose_needs_mapping empty_device
           (world_with_state lit_world (VList [])) Hstate).
Defined.

Lemma save_state_file_run writable file_name w :
  save_state_file writable file_name w =
  if writable (state_file file_name) then
    (Return tt,
     mkWorld (self w) (wire w)
       (file_set (files w) (state_file file_name) (dumps (state (self w)))))
  else (Raise (open_error (state_file file_name)), w).
Proof.
  destruct (writable (state_file file_name)) eqn:E.
  - now apply save_state_file_writes.
  - unfold save_state_file, write_file. now rewrite E.
Qed.

Lemma load_state_file_run file_name w :
  load_state_file file_name w =
  match file_get (files w) (state_file file_name) with
  | Some text =>
      match loads text with
      | Return v => (Return tt, world_with_state w v)
      | Raise e => (Raise e, w)
      end
  | None => (Raise (open_error (state_file file_name)), w)
  end.
Proof.
  unfold load_state_file, read_file, bind, lift, set_state, get_self,
    set_self, world_with_state, with_docs.
  destruct (file_get (files w) (state_file file_name)) as [text | ];
    [ | reflexivity ].
  destruct (loads text); reflexivity.
Qed.



(** X16: loading changes nothing but the state document, and nothing at
    all when it raises.  When it returns, the new state document is the
    one the text of the file stands for, whatever the state document was
    before; it has string keys only, and loading the file again changes
    nothing more. *)
Theorem load_outcome file_name w r w'
  (Hload : load_state_file file_name w = (r, w')) :
  (exists st, w' = world_with_state w st) /\
  match r with
  | Return _ =>
      (exists text,
          file_get (files w) (state_file file_name) = Some text /\
          loads text = Return (state (self w'))) /\
      plain (state (self w')) /\
      (forall st,
          load_state_file file_name (world_with_state w st) =
          (Return tt, w')) /\
      load_state_file file_name w' = (Return tt, w')
  | Raise _ => w' = w
  end.
Proof.
  assert (Hsame : w = world_with_state w (state (self w)))
    by now destruct w as [[] ? ?].
  rewrite load_state_file_run in Hload.
  destruct (file_get (files w) (state_file file_name)) as [text | ] eqn:Hfile.
  - destruct (loads text) as [v | e] eqn:Hloads; inversion Hload; subst.
    + split; [ eauto | ]. split; [ eauto | ].
      split; [ exact (loads_plain text v Hloads) | ].
      split; [ intros st | ]; rewrite load_state_file_run;
        cbn [world_with_state files]; rewrite Hfile, Hloads; reflexivity.
    + split; [ eauto | reflexivity ].
  - inversion Hload; subst. split; [ eauto | reflexivity ].
Qed.

(** X16 on a session without files: loading raises and leaves the session
    as it was. *)
Lemma load_outcome_witness :
  load_state_file "police" lit_world = (Raise OSError, lit_world) /\
  exists st, lit_world = world_with_state lit_world st.
Proof.
  split; [ reflexivity | ].
  exact (proj1 (load_outcome "police" lit_world (Raise OSError) lit_world
                  eq_refl)).
Defined.

(** ** What every operation keeps *)

Lemma pull_state_state device w :
  state (self (snd (pull_state device w))) = state (self w) \/
  exists text,
    loads text = Return (state (self (snd (pull_state device w)))).
Proof.
  unfold pull_state, get_json, bind, get_self, http, lift, set_state,
    set_info, set_effects, set_palettes, set_self; simpl.
  destruct (device _ _) as [t1 | ]; simpl; [ | left; reflexivity ].
  destruct (loads t1) as [v1 | ] eqn:E1; simpl; [ | left; reflexivity ].
  right. exists t1. rewrite E1. f_equal.
  run_transport device; reflexivity.
Qed.

Lemma push_state_state device get_resp w :
  state (self (snd (push_state device get_resp w))) = state (self w) \/
  state (self (snd (push_state device get_resp w))) =
  verbose (state (self w)) \/
  exists text,
    loads text = Return (state (self (snd (push_state device get_resp w)))).
Proof.
  destruct get_resp; [ | rewrite push_state_plain; left; reflexivity ].
  unfold push_state, bind, _state_url, get_state, get_self, http, lift, ret,
    set_state, set_self; simpl.
  destruct (state (self w)) as [ | ? | ? | ? | ? | d] eqn:Hst; simpl;
    rewrite ?Hst; simpl; try (left; reflexivity).
  destruct (device _ _) as [t | ]; simpl; [ | right; left; reflexivity ].
  destruct (loads t) as [v | ] eqn:E; simpl; [ | right; left; reflexivity ].
  right. right. eauto.
Qed.

Lemma plain_verbose st : plain st -> plain (verbose st).
Proof.
  intros Hst. destruct st as [ | ? | ? | ? | ? | d]; try exact Hst.
  apply (plain_setitem (VDict d) (KStr "v") (VBool true));
    [ exact Hst | split; reflexivity | left; reflexivity | reflexivity ].
Qed.

Lemma run_op_plain device writable o w :
  plain (state (self w)) -> keeps_keys o (state (self w)) = true ->
  plain (state (self (snd (run_op device writable o w)))).
Proof.
  intros Hst Hkeep. destruct o; cbn [run_op].
  - destruct (pull_state_state device w) as [-> | [text H%loads_plain]];
      assumption.
  - destruct (push_state_state device get_resp w)
      as [-> | [-> | [text H%loads_plain]]];
      [ assumption | now apply plain_verbose | assumption ].
  - rewrite save_state_file_run.
    destruct (writable (state_file file_name)); exact Hst.
  - rewrite load_state_file_run.
    destruct (file_get (files w) (state_file file_name)) as [text | ];
      [ | exact Hst ].
    destruct (loads text) as [v | e] eqn:E; [ | exact Hst ].
    exact (loads_plain text v E).
  - unfold PropertyWLED.reboot_wled, bind, set_state, get_self, set_self.
    cbn -[push_state]. rewrite push_state_plain. split; reflexivity.
  - unfold bind. rewrite loaded_run. cbn [fst snd].
    destruct (rbind _ _); exact Hst.
  - unfold bind. rewrite getitem_run.
    destruct (rbind _ _); exact Hst.
  - unfold bind. rewrite get_field_reads.
    destruct (get_steps _ _); exact Hst.
  - destruct (set_field f v w) as [r w'] eqn:Hset.
    exact (set_field_plain f v w r w' Hst Hkeep Hset).
Qed.

Lemma session_after_plain device writable ops : forall w,
  plain (state (self w)) -> keep_keys device writable ops w = true ->
  plain (state (self (session_after device writable ops w))).
Proof.
  induction ops as [ | o ops IH]; intros w Hst Hkeep; [ exact Hst | ].
  cbn [keep_keys] in Hkeep. apply andb_true_iff in Hkeep.
  destruct Hkeep as [Ho Hrest].
  cbn [session_after]. apply IH; [ | exact Hrest ].
  now apply run_op_plain.
Qed.

(** X18: string keys are an invariant of a session.  Starting from a state
    document with string keys only (as a pull or a load leaves it), any
    list of operations -- pulls, pushes, saves, loads, reboots, reads and
    assignments of properties, failed or not -- leaves such a document,
    as long as no segment start is assigned while the segments are a
    mapping; a snapshot taken then is faithful: saving and loading it
    gives the session back. *)
Theorem string_keys_invariant device writable ops file_name w
  (Hplain : plain (state (self w)))
  (Hkeep : keep_keys device writable ops w = true)
  (Hfile : writable (state_file file_name) = true) :
  let w1 := session_after device writable ops w in
  plain (state (self w1)) /\
  exists w2,
    save_state_file writable file_name w1 = (Return tt, w2) /\
    load_state_file file_name w2 = (Return tt, w2).
Proof.
  intros w1.
  pose proof (session_after_plain device writable ops w Hplain Hkeep) as H1.
  fold w1 in H1. split; [ exact H1 | ].
  eexists. split; [ now apply save_state_file_writes | ].
  destruct H1 as [Hwf Hkeys].
  rewrite (load_state_file_reads file_name _ (state (self w1)));
    [ | assumption | assumption | apply file_get_set ].
  destruct w1 as [[] ? ?]. reflexivity.
Qed.

(** X18 on the session [{"on": True}] and a device answering [{}]: the
    brightness is set, the state is pushed with its response, a segment
    start is assigned (which raises), and the state is saved. *)
Lemma string_keys_invariant_witness :
  plain
    (state
       (self
          (session_after empty_device all_writable
             [OpSet Brightness (VInt 9); OpPush true;
              OpSet (SegmentStart 0) (VInt 1); OpSave "s"] lit_world))) /\
  exists w2,
    save_state_file all_writable "t"
      (session_after empty_device all_writable
         [OpSet Brightness (VInt 9); OpPush true;
          OpSet (SegmentStart 0) (VInt 1); OpSave "s"] lit_world) =
    (Return tt, w2) /\
    load_state_file "t" w2 = (Return tt, w2).
Proof.
  assert (Hplain : plain (state (self lit_world))) by (split; reflexivity).
  exact (string_keys_invariant empty_device all_writable
           [OpSet Brightness (VInt 9); OpPush true;
            OpSet (SegmentStart 0) (VInt 1); OpSave "s"] "t" lit_world
           Hplain eq_refl eq_refl).
Defined.

(** ** Snapshots *)

Lemma push_state_files device get_resp w :
  files (snd (push_state device get_resp w)) = files w.
Proof.
  destruct get_resp; [ | rewrite push_state_plain; reflexivity ].
  unfold push_state, bind, _state_url, get_state, get_self, http, lift, ret,
    set_state, set_self; simpl.
  destruct (state (self w)) as [ | ? | ? | ? | ? | d] eqn:Hst; simpl;
    rewrite ?Hst; simpl; try reflexivity.
  run_transport device; reflexivity.
Qed.

(** No operation but a save changes a file. *)
Lemma run_op_files device writable o w :
  is_save o = false -> files (snd (run_op device writable o w)) = files w.
Proof.
  intros Ho. destruct o; try discriminate Ho; cbn [run_op].
  - destruct (pull_state device w) as [[[] | e] w'] eqn:Hpull; cbn [snd].
    + now destruct (pull_state_success _ _ _ Hpull) as (_ & Hfiles & _).
    + now destruct (pull_state_failure _ _ _ _ Hpull) as [_ Hfiles].
  - apply push_state_files.
  - rewrite load_state_file_run.
    destruct (file_get (files w) (state_file file_name)) as [text | ];
      [ | reflexivity ].
    destruct (loads text); reflexivity.
  - unfold PropertyWLED.reboot_wled, bind, set_state, get_self, set_self.
    cbn -[push_state]. rewrite push_state_plain. reflexivity.
  - unfold bind. rewrite loaded_run. cbn [fst snd].
    destruct (rbind _ _); reflexivity.
  - unfold bind. rewrite getitem_run.
    destruct (rbind _ _); reflexivity.
  - unfold bind. rewrite get_field_reads.
    destruct (get_steps _ _); reflexivity.
  - rewrite set_field_writes.
    destruct (validated f v); [ | reflexivity ].
    destruct (set_steps _ _ _); reflexivity.
Qed.

Lemma session_after_files device writable ops : forall w,
  forallb (fun o => negb (is_save o)) ops = true ->
  files (session_after device writable ops w) = files w.
Proof.
  induction ops as [ | o ops IH]; intros w Hops; [ reflexivity | ].
  cbn [forallb] in Hops. apply andb_true_iff in Hops.
  destruct Hops as [Ho Hops]. apply negb_true_iff in Ho.
  cbn [session_after]. rewrite IH by exact Hops.
  now apply run_op_files.
Qed.

(** X17: a snapshot outlives the session that took it.  After a state
    document with string keys only has been saved, whatever is done with
    the session next -- pulls, pushes, loads, reboots, reads and
    assignments of properties, failed or not, but no other save --
    loading the name brings that document back. *)
Theorem snapshot_survives device writable file_name ops w w1
  (Hplain : plain (state (self w)))
  (Hsave : save_state_file writable file_name w = (Return tt, w1))
  (Hops : forallb (fun o => negb (is_save o)) ops = true) :
  load_state_file file_name (session_after device writable ops w1) =
  (Return tt,
   world_with_state (session_after device writable ops w1)
     (state (self w))).
Proof.
  rewrite save_state_file_run in Hsave.
  destruct (writable (state_file file_name)); [ | discriminate Hsave ].
  inversion Hsave; subst; clear Hsave.
  destruct Hplain as [Hwf Hkeys].
  apply load_state_file_reads; try assumption.
  rewrite session_after_files by exact Hops.
  cbn [files]. apply file_get_set.
Qed.

(** X17 on the session [{"on": True}] and a device answering [{}]: the
    state saved as [day] comes back after the brightness was set, the
    state pushed with its response and the device rebooted. *)
Lemma snapshot_survives_witness :
  state
    (self
       (session_after empty_device all_writable
          [OpSet Brightness (VInt 9); OpPush true; OpReboot]
          (mkWorld (self lit_world) []
             [("./saved_states/day.json",
               dumps (VDict [(KStr "on", VBool true)]))]))) =
  VDict [(KStr "rb", VBool true)] /\
  load_state_file "day"
    (session_after empty_device all_writable
       [OpSet Brightness (VInt 9); OpPush true; OpReboot]
       (mkWorld (self lit_world) []
          [("./saved_states/day.json",
            dumps (VDict [(KStr "on", VBool true)]))])) =
  (Return tt,
   world_with_state
     (session_after empty_device all_writable
        [OpSet Brightness (VInt 9); OpPush true; OpReboot]
        (mkWorld (self lit_world) []
           [("./saved_states/day.json",
             dumps (VDict [(KStr "on", VBool true)]))]))
     (VDict [(KStr "on", VBool true)])).
Proof.
  split; [ reflexivity | ].
  assert (Hplain : plain (state (self lit_world))) by (split; reflexivity).
  exact (snapshot_survives empty_device all_writable "day"
           [OpSet Brightness (VInt 9); OpPush true; OpReboot] lit_world
           (mkWorld (self lit_world) []
              [("./saved_states/day.json",
                dumps (VDict [(KStr "on", VBool true)]))])
           Hplain eq_refl eq_refl).
Defined.

(** ** The script *)




(** ** Validators on any input *)

Lemma verify_range_run v lo hi :
  _verify_range v lo hi =
  rbind (py_int v) (fun n =>
  if (lo <=? n) && (n <=? hi) then Return n else Raise ValueError).
Proof.
  unfold _verify_range. destruct (py_int v) as [n | e]; [ | reflexivity ].
  cbn [rbind]. rewrite Z.gtb_ltb.
  destruct (Z.ltb hi n) eqn:Hhi; destruct (Z.ltb n lo) eqn:Hlo;
    destruct (Z.leb lo n) eqn:Hlo'; destruct (Z.leb n hi) eqn:Hhi';
    try reflexivity;
    rewrite ?Z.ltb_lt, ?Z.ltb_ge, ?Z.leb_le, ?Z.leb_gt in *; lia.
Qed.

Lemma in_range_iff lo hi n :
  (lo <=? n) && (n <=? hi) = true <-> lo <= n <= hi.
Proof. rewrite andb_true_iff, !Z.leb_le. reflexivity. Qed.

(** X20: the range validator turns its argument into an integer with [int]
    and returns it exactly when it lies in the range; it raises what [int]
    raises, or ValueError for an integer out of range, and nothing else.
    The 8-bit validator is the range validator for 1..255. *)
Theorem verify_range_outcome (v : value) (lo hi : Z) :
  (forall n,
     _verify_range v lo hi = Return n <->
     py_int v = Return n /\ lo <= n <= hi) /\
  (forall e,
     _verify_range v lo hi = Raise e <->
     py_int v = Raise e \/
     e = ValueError /\ exists n, py_int v = Return n /\ ~ lo <= n <= hi) /\
  _verify_int8bit v = _verify_range v 1 255.
Proof.
  split; [ | split; [ | reflexivity ] ].
  - intros n. rewrite verify_range_run.
    destruct (py_int v) as [m | e]; cbn [rbind].
    + destruct ((lo <=? m) && (m <=? hi)) eqn:E.
      * apply in_range_iff in E. split.
        -- intros H. inversion H. subst. auto.
        -- intros [H _]. exact H.
      * split; [ discriminate | ].
        intros [H Hn]. inversion H. subst.
        apply in_range_iff in Hn. congruence.
    + split; [ discriminate | intros [H _]; discriminate H ].
  - intros e. rewrite verify_range_run.
    destruct (py_int v) as [m | e0]; cbn [rbind].
    + destruct ((lo <=? m) && (m <=? hi)) eqn:E.
      * apply in_range_iff in E. split; [ discriminate | ].
        intros [H | [_ (n & H & Hn)]]; [ discriminate H | ].
        inversion H. subst. contradiction.
      * split.
        -- intros H. inversion H. subst. right.
           split; [ reflexivity | ]. exists m. split; [ reflexivity | ].
           intros Hm. apply in_range_iff in Hm. congruence.
        -- intros [H | [-> _]]; [ discriminate H | reflexivity ].
    + split; [ auto | ].
      intros [H | [_ (n & H & _)]]; [ exact H | discriminate H ].
Qed.

Lemma int_digits_cons c c' r :
  is_digit c = true -> is_digit c' = true ->
  int_digits (String c (String c' r)) =
  option_map (String c) (int_digits (String c' r)).
Proof.
  intros Hc Hc'. cbn [int_digits]. rewrite Hc, Hc'.
  destruct c' as [[] [] [] [] [] [] [] []]; try discriminate Hc';
    reflexivity.
Qed.

Lemma string_of_uint_head u :
  u <> Nil ->
  exists c r,
    NilEmpty.string_of_uint u = String c r /\ is_digit c = true /\
    is_int_space c = false.
Proof.
  destruct u; [ congruence | .. ]; intros _; do 2 eexists;
    (split; [ reflexivity | split; reflexivity ]).
Qed.

Lemma int_digits_uint u :
  u <> Nil ->
  int_digits (NilEmpty.string_of_uint u) = Some (NilEmpty.string_of_uint u).
Proof.
  induction u as [ | u IH | u IH | u IH | u IH | u IH | u IH | u IH | u IH
                   | u IH | u IH ]; intros Hu; [ congruence | .. ];
    (destruct (Decimal.uint_eq_dec u Nil) as [-> | Hnil];
     [ reflexivity | ];
     destruct (string_of_uint_head u Hnil) as (c & r & E & Hc & _);
     specialize (IH Hnil); cbn [NilEmpty.string_of_uint];
     rewrite E in *; rewrite int_digits_cons by (reflexivity || exact Hc);
     rewrite IH; reflexivity).
Qed.

Lemma int_of_str_numeral z : int_of_str (str_of_int z) = Return z.
Proof.
  destruct z as [ | p | p]; [ reflexivity | | ].
  - pose proof (DecimalPos.Unsigned.to_uint_nonnil p) as Hnil.
    pose proof (int_digits_uint _ Hnil) as Hd.
    pose proof (digits_value_to_uint p) as Hv.
    destruct (string_of_uint_head _ Hnil) as (c & r & E & Hc & Hsp).
    unfold str_of_int, int_of_str. rewrite E in *.
    cbn [lstrip]. rewrite Hsp.
    destruct c as [[] [] [] [] [] [] [] []]; try discriminate Hc;
      rewrite Hd, Hv; reflexivity.
  - pose proof (DecimalPos.Unsigned.to_uint_nonnil p) as Hnil.
    pose proof (int_digits_uint _ Hnil) as Hd.
    pose proof (digits_value_to_uint p) as Hv.
    unfold str_of_int, int_of_str.
    change (lstrip (String "-" ?s)) with (String "-" s).
    cbv iota beta. rewrite Hd, Hv. reflexivity.
Qed.

Lemma numeral_no_mode_name z :
  NightlightProperty._MODE_MAP_getitem (VStr (str_of_int z)) = Raise KeyError.
Proof.
  destruct z as [ | p | p]; [ reflexivity | | reflexivity ].
  pose proof (DecimalPos.Unsigned.to_uint_nonnil p) as Hnil.
  destruct (string_of_uint_head _ Hnil) as (c & r & E & Hc & _).
  unfold str_of_int. rewrite E.
  destruct c as [[] [] [] [] [] [] [] []]; try discriminate Hc; reflexivity.
Qed.

Lemma validated_numeral z f :
  match f with
  | On | NightlightOn => True
  | _ => validated f (VStr (str_of_int z)) = validated f (VInt z)
  end.
Proof.
  destruct f; try exact I; try reflexivity;
    try (unfold validated, _verify_int8bit; cbn [py_int];
         rewrite int_of_str_numeral; reflexivity).
  unfold validated, mode_value. rewrite numeral_no_mode_name.
  cbn [py_int NightlightProperty._MODE_MAP_getitem rbind].
  rewrite int_of_str_numeral. reflexivity.
Qed.

(** X21: a numeral string stands for its integer in every integer property:
    assigning [str(z)] does what assigning [z] does, the mode included
    (no numeral is a mode name).  The two switches differ: they take the
    truth value of the string, so every numeral, ["0"] included, switches
    on, while the integer 0 switches off. *)
Theorem numeral_strings (z : Z) (f : field) (w : World) :
  match f with
  | On | NightlightOn =>
      validated f (VStr (str_of_int z)) = Return (VBool true) /\
      validated f (VInt 0) = Return (VBool false)
  | _ =>
      validated f (VStr (str_of_int z)) = validated f (VInt z) /\
      set_field f (VStr (str_of_int z)) w = set_field f (VInt z) w
  end.
Proof.
  assert (Hne : py_bool (VStr (str_of_int z)) = true).
  { destruct z as [ | p | p]; try reflexivity.
    pose proof (DecimalPos.Unsigned.to_uint_nonnil p) as Hnil.
    destruct (string_of_uint_head _ Hnil) as (c & r & E & _).
    unfold str_of_int. rewrite E. reflexivity. }
  pose proof (validated_numeral z f) as Hv.
  destruct f;
    try (split; [ unfold validated, _verify_bool; now rewrite Hne
                | reflexivity ]);
    (split; [ exact Hv | rewrite !set_field_writes, Hv; reflexivity ]).
Qed.
